(** * STG4000 download wrapper: a shallow embedding of
      [src/stg/_wrapper/downloadnet.py]

    The wrapper drives a multichannel stimulator through a vendor SDK.  Every
    method of the Python class [STG4000] is a short sequence of SDK calls made
    inside a [with self.interface() as interface:] block.  The embedding keeps
    that shape: a method is a computation in a small state-and-error monad
    whose state is the log of everything the wrapper asked of the device, and
    whose errors are the Python exceptions the method can leave with.

    Python [int] is [Z]; a Python [float] is an IEEE 754 binary64 number, in
    the representation and with the operations of the standard library's
    [SpecFloat] (53 bits of precision, round to nearest even), so a float
    product or quotient is rounded as Python rounds it; Python lists are
    [list]; the mode argument of [_download] is a [string].

    The file has two parts: the embedding and the vocabulary of the
    statements first, then the lemmas and the theorems about them. *)

From Stdlib Require Import ZArith QArith Qround SpecFloat List String
  Bool Lia.
Import ListNotations.

Local Open Scope Z_scope.

(** ** The names imported from [stg._wrapper.dll] *)

Module Dll.

(** The two destination tags [CURRENT] and [VOLTAGE] handed to
    [PrepareAndSendData]. *)
Inductive mode_tag : Set := CURRENT | VOLTAGE.

(** An error of the SDK session, as the session raised it. *)
Definition dev_error := string.

(** Exceptions a wrapper method can leave with.  [ValueError] is the wrapper's
    own [raise]; [OverflowError] comes from the explicit [System.Int32],
    [System.UInt32] and [System.UInt64] constructors; [DeviceError] is
    whatever the SDK session raised, carried as it was raised. *)
Inductive exn : Set :=
| ValueError (msg : string)
| OverflowError
| DeviceError (e : dev_error).

(** The values of the three .NET integer types the wrapper names. *)
Definition in_Int32 (a : Z) : bool := (- 2 ^ 31 <=? a) && (a <? 2 ^ 31).
Definition in_UInt32 (a : Z) : bool := (0 <=? a) && (a <? 2 ^ 32).
Definition in_UInt64 (a : Z) : bool := (0 <=? a) && (a <? 2 ^ 64).

(** Modelled from the spec: [System] is re-exported by [stg._wrapper.dll],
    which is not among the sources.  The spec types the amplitudes handed to
    the transfer as a "sequence of int32", with "no clamping".
    [System.Int32(a)] is the .NET binding's constructor of a 32-bit signed
    integer from a Python int: it keeps a value that fits and raises
    [OverflowError] for any other; it neither wraps around nor saturates. *)
Definition Int32 (a : Z) : exn + Z :=
  if in_Int32 a then inr a else inl OverflowError.

(** Modelled from the spec: as [Int32], for the "uint" of the start/stop
    bitmask and of the channel index of a mode set. *)
Definition UInt32 (a : Z) : exn + Z :=
  if in_UInt32 a then inr a else inl OverflowError.

(** Modelled from the spec: as [Int32], for the durations handed to the
    transfer, a "sequence of uint64". *)
Definition UInt64 (a : Z) : exn + Z :=
  if in_UInt64 a then inr a else inl OverflowError.

(** Modelled from the spec: [bitmap] is defined in [stg._wrapper.dll], which
    is not among the sources.  The spec's [toBitmask] "builds an unsigned
    integer bitmask with bit i set iff trigger/channel i is present in
    indices. Empty input -> bitmask 0. [...] duplicates collapse". *)
Definition bitmap (valuelist : list Z) : Z :=
  fold_right (fun i acc => Z.lor (Z.shiftl 1 i) acc) 0 valuelist.

End Dll.
Export Dll.

(** ** The device session, seen from the wrapper *)

Module Device.

(** Operations of the SDK session that return nothing. *)
Inductive command : Set :=
| SetCurrentMode (chan : option Z)          (* [None]: the no-argument form *)
| SetVoltageMode (chan : option Z)
| SendStart (mask : Z)
| SendStop (mask : Z)
| SetupTrigger (base : Z) (channelmap syncoutmap repeat : list Z)
| PrepareAndSendData (chan : Z) (amplitudes durations : list Z)
                     (mode : mode_tag).

(** Operations of the SDK session that return a number. *)
Inductive query : Set :=
| GetNumberOfAnalogChannels
| GetNumberOfTriggerInputs
| GetCurrentResolutionInNanoAmp (chan : Z)
| GetCurrentRangeInNanoAmp (chan : Z)
| GetVoltageResolutionInMicroVolt (chan : Z)
| GetVoltageRangeInMicroVolt (chan : Z)
| GetDACResolution.

(** What the wrapper asks of the device, in the order it asks. [Enter] and
    [Exit] are the two ends of a [with self.interface() as interface:]
    block. *)
Inductive event : Set :=
| Enter
| Exit
| Cmd (c : command)
| Ask (q : query)
| GetStgVersionInfo (a b : string).

(** The device is an arbitrary test double: what it answers may depend on
    everything it was asked before. *)
Record device : Type := {
  on_enter : list event -> option dev_error;
  on_command : list event -> command -> option dev_error;
  on_query : list event -> query -> dev_error + Z;
  on_version : list event -> string -> string -> dev_error + (string * string)
}.

(** Modelled from the spec: [DownloadInterface], whose [__enter__] and
    [__exit__] are the two ends of a session, is in [stg._wrapper.dll], not
    among the sources.  The spec has "open on enter, release on exit" with
    "guaranteed release on exit - including on error": entering is answered
    by the device and can fail, leaving never fails.  [failure d h e] is the
    error, if any, with which the device answers event [e] after the history
    [h]. *)
Definition failure (d : device) (h : list event) (e : event)
  : option dev_error :=
  match e with
  | Enter => on_enter d h
  | Exit => None
  | Cmd c => on_command d h c
  | Ask q => match on_query d h q with inl x => Some x | inr _ => None end
  | GetStgVersionInfo a b =>
      match on_version d h a b with inl x => Some x | inr _ => None end
  end.

Definition is_exit (e : event) : bool :=
  match e with Exit => true | _ => false end.

Definition is_transfer_command (c : command) : bool :=
  match c with PrepareAndSendData _ _ _ _ => true | _ => false end.

Definition is_transfer (e : event) : bool :=
  match e with Cmd c => is_transfer_command c | _ => false end.

(** A device none of whose operations ever fails. *)
Definition cooperative (d : device) : Prop :=
  (forall h, on_enter d h = None) /\
  (forall h c, on_command d h c = None) /\
  (forall h q, exists v, on_query d h q = inr v) /\
  (forall h a b, exists v, on_version d h a b = inr v).

(** A test double that accepts everything and reports [n] to every query. *)
Definition quiet (n : Z) : device := {|
  on_enter := fun _ => None;
  on_command := fun _ _ => None;
  on_query := fun _ _ => inr n;
  on_version := fun _ _ _ => inr ("1.0"%string, "Rev. A"%string)
|}.

(** A test double that accepts everything except the commands selected by
    [bad], which it rejects with [err]. *)
Definition rejecting (n : Z) (bad : command -> bool) (err : dev_error)
  : device := {|
  on_enter := fun _ => None;
  on_command := fun _ c => if bad c then Some err else None;
  on_query := fun _ _ => inr n;
  on_version := fun _ _ _ => inr ("1.0"%string, "Rev. A"%string)
|}.

(** A test double that accepts everything and whose channel count changes
    between calls: 4 until it has been asked once, 8 from then on. *)
Definition regrown : device := {|
  on_enter := fun _ => None;
  on_command := fun _ _ => None;
  on_query := fun h _ =>
    if existsb (fun e => match e with Ask _ => true | _ => false end) h
    then inr 8 else inr 4;
  on_version := fun _ _ _ => inr ("1.0"%string, "Rev. A"%string)
|}.

End Device.
Export Device.

(** ** The monad of wrapper methods *)

Module Run.

(** A computation takes the log so far and gives a result or an exception,
    with the extended log. *)
Definition M (A : Type) : Type := list event -> (exn + A) * list event.

Definition ret {A} (a : A) : M A := fun h => (inr a, h).

Definition raise {A} (x : exn) : M A := fun h => (inl x, h).

Definition bind {A B} (m : M A) (k : A -> M B) : M B :=
  fun h =>
    match m h with
    | (inl x, h') => (inl x, h')
    | (inr a, h') => k a h'
    end.

(** A pure conversion that can raise. *)
Definition lift {A} (r : exn + A) : M A := fun h => (r, h).

Fixpoint for_each {A} (l : list A) (body : A -> M unit) : M unit :=
  match l with
  | [] => ret tt
  | x :: xs => bind (body x) (fun _ => for_each xs body)
  end.

(** A list comprehension whose element expression can raise. *)
Fixpoint comprehension {A B} (f : A -> M B) (l : list A) : M (list B) :=
  match l with
  | [] => ret []
  | x :: xs =>
      bind (f x) (fun y => bind (comprehension f xs) (fun ys => ret (y :: ys)))
  end.

Section WithDevice.

Variable self : device.

Definition command_ (c : command) : M unit :=
  fun h =>
    match on_command self h c with
    | Some x => (inl (DeviceError x), h ++ [Cmd c])
    | None => (inr tt, h ++ [Cmd c])
    end.

Definition ask (q : query) : M Z :=
  fun h =>
    match on_query self h q with
    | inl x => (inl (DeviceError x), h ++ [Ask q])
    | inr v => (inr v, h ++ [Ask q])
    end.

Definition ask_version (a b : string) : M (string * string) :=
  fun h =>
    match on_version self h a b with
    | inl x => (inl (DeviceError x), h ++ [GetStgVersionInfo a b])
    | inr v => (inr v, h ++ [GetStgVersionInfo a b])
    end.

(** Modelled from the spec: the context manager behind
    [with self.interface() as interface: body] is [DownloadInterface], not
    among the sources; the spec has a "scoped acquisition" whose release is
    guaranteed on every exit path and through which errors surface "as-is".
    If the session cannot be entered the body is not run and nothing is
    left; otherwise the session is left after the body, whether the body
    returned or raised, and the body's outcome is the block's outcome. *)
Definition with_interface {A} (body : M A) : M A :=
  fun h =>
    match on_enter self h with
    | Some x => (inl (DeviceError x), h ++ [Enter])
    | None => let '(r, h') := body (h ++ [Enter]) in (r, h' ++ [Exit])
    end.

End WithDevice.

End Run.
Export Run.

Declare Scope wrapper_scope.
Delimit Scope wrapper_scope with wrapper.
Notation "x <- m ;; k" := (bind m (fun x => k))
  (at level 61, m at next level, right associativity) : wrapper_scope.
Notation "m ;; k" := (bind m (fun _ => k))
  (at level 61, right associativity) : wrapper_scope.
Local Open Scope wrapper_scope.

(** ** Python built-ins used by the wrapper *)

Module Py.

(** [range(n)] for an integer [n]: empty when [n <= 0]. *)
Definition range (n : Z) : list Z := map Z.of_nat (seq 0 (Z.to_nat n)).

(** [l == []] on lists. *)
Definition eq_nil {A} (l : list A) : bool :=
  match l with [] => true | _ :: _ => false end.

(** [l is []]: the right operand is a list object built for this very
    comparison, and no object that existed before is identical to it; the
    test is false whatever [l] holds. *)
Definition is_fresh_nil {A} (l : list A) : bool := false.

(** Truncation of a rational toward zero. *)
Definition trunc (x : Q) : Z := Z.quot (Qnum x) (Z.pos (Qden x)).

(** A Python [float]: binary64. *)
Definition float : Set := spec_float.
Definition prec : Z := 53.
Definition emax : Z := 1024.

(** The float of an integer, as Python converts the integer operand of a
    mixed product: the nearest double (exact below 2^53). *)
Definition float_of_Z (z : Z) : float := binary_normalize prec emax z 0 false.

(** An integer as an exact significand with exponent 0. *)
Definition exact (z : Z) : spec_float :=
  match z with
  | Z0 => S754_zero false
  | Zpos p => S754_finite false p 0
  | Zneg p => S754_finite true p 0
  end.

(** [n / d] on two integers, [d] positive: the quotient rounded once to the
    nearest double, as true division of integers and as the decimal literal
    of the same value; the name of a double in the examples. *)
Definition ratio (n : Z) (d : positive) : float :=
  SFdiv prec emax (exact n) (exact (Z.pos d)).

(** [a / b] for integers, [b] a positive constant: true division gives a
    float, and raises if the quotient is beyond the largest double. *)
Definition truediv (a : Z) (b : positive) : exn + float :=
  match ratio a b with
  | S754_infinity _ => inl OverflowError
  | r => inr r
  end.

(** The exact value of a finite double (0 for the others). *)
Definition value (f : float) : Q :=
  match f with
  | S754_finite s m e =>
      let n := if s then Z.neg m else Z.pos m in
      match e with
      | Z0 => inject_Z n
      | Z.pos p => inject_Z (n * 2 ^ Z.pos p)
      | Z.neg p => n # (2 ^ p)%positive
      end
  | _ => 0%Q
  end.

(** An element of the sequences given to [download]: the docstring passes
    ints as well as floats. *)
Inductive number : Set :=
| Int (z : Z)
| Float (f : float).

(** [a * k] for an integer constant [k]: exact on an int; on a float the
    constant becomes a float and the product is rounded to a double. *)
Definition mul_int (a : number) (k : Z) : number :=
  match a with
  | Int z => Int (z * k)
  | Float f => Float (SFmul prec emax f (float_of_Z k))
  end.

(** [-a]. *)
Definition neg (a : number) : number :=
  match a with
  | Int z => Int (- z)
  | Float f => Float (SFopp f)
  end.

(** The exact value of a number, if it has one: none for an infinity or a
    NaN. *)
Definition number_value (a : number) : option Q :=
  match a with
  | Int z => Some (inject_Z z)
  | Float (S754_infinity _) => None
  | Float S754_nan => None
  | Float f => Some (value f)
  end.

(** [int(a)]: an int is kept; a finite float is truncated toward zero; an
    infinity raises [OverflowError] and a NaN raises [ValueError]. *)
Definition int (a : number) : exn + Z :=
  match a with
  | Int z => inr z
  | Float (S754_infinity _) => inl OverflowError
  | Float S754_nan => inl (ValueError "cannot convert float NaN to integer")
  | Float f => inr (trunc (value f))
  end.

(** The spec's words for the unit conversion are [round(x)], Python's
    rounding of a number to the nearest integer, ties going to the even
    neighbour.  This definition follows the spec, not the source. *)
Definition spec_round (x : Q) : Z :=
  let f := Qfloor x in
  let r := (x - inject_Z f)%Q in
  match Qcompare r (1 # 2) with
  | Lt => f
  | Gt => f + 1
  | Eq => if Z.even f then f else f + 1
  end.

(** [s.replace(old, new)] for a non-empty [old]: every occurrence of [old]
    in [s], scanning from the left and not overlapping, becomes [new].
    [skip] counts the characters of an occurrence still to be passed over. *)
Fixpoint replace_from (old new : string) (skip : nat) (s : string) : string :=
  match s with
  | EmptyString => EmptyString
  | String c rest =>
      match skip with
      | S k => replace_from old new k rest
      | O =>
          if String.prefix old s then
            (new ++ replace_from old new (String.length old - 1) rest)%string
          else String c (replace_from old new 0 rest)
      end
  end.

Definition replace (old new s : string) : string := replace_from old new 0 s.

End Py.

(** ** The class [STG4000] *)

Module STG4000.

Section Methods.

Variable self : device.

(** Lines 66-82. *)
Definition set_current_mode (channel_index : list Z) : M unit :=
  if Py.eq_nil channel_index then
    with_interface self (command_ self (SetCurrentMode None))
  else
    with_interface self
      (for_each channel_index (fun chan =>
         c <- lift (UInt32 chan) ;;
         command_ self (SetCurrentMode (Some c)))).

(** Lines 84-101. *)
Definition set_voltage_mode (channel_index : list Z) : M unit :=
  if Py.eq_nil channel_index then
    with_interface self (command_ self (SetVoltageMode None))
  else
    with_interface self
      (for_each channel_index (fun chan =>
         c <- lift (UInt32 chan) ;;
         command_ self (SetVoltageMode (Some c)))).

(** Lines 44-48: the pair [(soft, hard)]. *)
Definition _version : M (string * string) :=
  with_interface self (ask_version self EmptyString EmptyString).

(** Lines 36-42. *)
Definition version : M string :=
  v <- _version ;;
  let '(soft, hard) := v in
  ret ("Hardware - " ++ Py.replace "Rev." "Revision" hard
       ++ " : Software - Version: " ++ soft)%string.

(** Lines 103-153: the numeric properties.  The device answers an integer;
    the division is Python's true division and gives a float. *)
Definition current_resolution_in_uA : M Py.float :=
  out <- with_interface self
           (c <- lift (UInt32 0) ;;
            v <- ask self (GetCurrentResolutionInNanoAmp c) ;;
            lift (Py.truediv v 1000)) ;;
  ret out.

Definition current_resolution_in_mA : M Py.float :=
  out <- with_interface self
           (c <- lift (UInt32 0) ;;
            v <- ask self (GetCurrentResolutionInNanoAmp c) ;;
            lift (Py.truediv v (1000 * 1000))) ;;
  ret out.

Definition current_range_in_mA : M Py.float :=
  out <- with_interface self
           (c <- lift (UInt32 0) ;;
            v <- ask self (GetCurrentRangeInNanoAmp c) ;;
            lift (Py.truediv v (1000 * 1000))) ;;
  ret out.

Definition current_range_in_uA : M Py.float :=
  out <- with_interface self
           (c <- lift (UInt32 0) ;;
            v <- ask self (GetCurrentRangeInNanoAmp c) ;;
            lift (Py.truediv v 1000)) ;;
  ret out.

Definition voltage_resolution_in_uV : M Z :=
  out <- with_interface self
           (c <- lift (UInt32 0) ;;
            ask self (GetVoltageResolutionInMicroVolt c)) ;;
  ret out.

Definition voltage_range_in_mV : M Py.float :=
  out <- with_interface self
           (c <- lift (UInt32 0) ;;
            v <- ask self (GetVoltageRangeInMicroVolt c) ;;
            lift (Py.truediv v 1000)) ;;
  ret out.

Definition time_resolution_in_us : M Z := ret 20.

Definition DAC_resolution : M Z :=
  out <- with_interface self (ask self GetDACResolution) ;;
  ret out.

(** Lines 155-160. *)
Definition channel_count : M Z :=
  out <- with_interface self (ask self GetNumberOfAnalogChannels) ;;
  ret out.

(** Lines 162-167. *)
Definition trigin_count : M Z :=
  out <- with_interface self (ask self GetNumberOfTriggerInputs) ;;
  ret out.

(** Lines 169-187. *)
Definition stop_stimulation (triggerIndex : list Z) : M unit :=
  triggerIndex <-
    (if Py.eq_nil triggerIndex then
       n <- channel_count ;;
       ret (map (fun c => c) (Py.range n))
     else ret triggerIndex) ;;
  with_interface self
    (m <- lift (UInt32 (bitmap triggerIndex)) ;;
     command_ self (SendStop m)).

(** Lines 189-207. *)
Definition start_stimulation (triggerIndex : list Z) : M unit :=
  triggerIndex <-
    (if Py.is_fresh_nil triggerIndex then
       n <- channel_count ;;
       ret (map (fun c => c) (Py.range n))
     else ret triggerIndex) ;;
  with_interface self
    (m <- lift (UInt32 (bitmap triggerIndex)) ;;
     command_ self (SendStart m)).

(** Lines 224-230: the three lists after the loop has run over [indices]. *)
Definition triggermap_loop (indices : list Z)
  : list Z * list Z * list Z :=
  fold_left
    (fun '(channelmap, syncoutmap, repeat) chan_idx =>
       let repeat := repeat ++ [1] in
       let syncoutmap := syncoutmap ++ [Z.shiftl 1 chan_idx] in
       let channelmap := channelmap ++ [Z.shiftl 1 chan_idx] in
       (channelmap, syncoutmap, repeat))
    indices ([], [], []).

(** Lines 209-232. *)
Definition diagonalize_triggermap : M unit :=
  n <- channel_count ;;
  let '(channelmap, syncoutmap, repeat) := triggermap_loop (Py.range n) in
  with_interface self
    (command_ self (SetupTrigger 0 channelmap syncoutmap repeat)).

(** Lines 274-296. *)
Definition _download (channel_index : list Z) (amplitudes durations : list Z)
                     (mode : string) : M unit :=
  if negb (List.length amplitudes =? List.length durations)%nat then
    raise (ValueError "Every amplitude needs a duration and vice versa!")
  else
    amplitudes <- comprehension (fun a => lift (Int32 a)) amplitudes ;;
    durations <- comprehension (fun d => lift (UInt64 d)) durations ;;
    if (mode =? "current")%string then
      set_current_mode channel_index ;;
      with_interface self
        (for_each channel_index (fun chan =>
           command_ self (PrepareAndSendData chan amplitudes durations CURRENT)))
    else if (mode =? "voltage")%string then
      set_voltage_mode channel_index ;;
      with_interface self
        (for_each channel_index (fun chan =>
           command_ self (PrepareAndSendData chan amplitudes durations VOLTAGE)))
    else ret tt.

(** Lines 234-272. *)
Definition download (channel_index : Z)
           (amplitudes_in_mA durations_in_ms : list Py.number) : M unit :=
  amplitudes <- comprehension
                  (fun a => lift (Py.int (Py.mul_int a 1000000)))
                  amplitudes_in_mA ;;
  durations <- comprehension
                 (fun s => lift (Py.int (Py.mul_int s 1000)))
                 durations_in_ms ;;
  _download [channel_index] amplitudes durations "current".

End Methods.

End STG4000.
Export STG4000.

(** ** Vocabulary of the statements *)

(** [all_succeed self h new]: the device answered every event of [new],
    asked in this order after the history [h], without an error. *)
Fixpoint all_succeed (self : device) (h new : list event) : bool :=
  match new with
  | [] => true
  | e :: rest =>
      match failure self h e with
      | None => all_succeed self (h ++ [e]) rest
      | Some _ => false
      end
  end.

(** What a run may look like: either the device answered everything and the
    result is a value or one of the exceptions [ok] allows; or exactly one
    event failed, everything after it is a session being left, and the result
    is that very failure. *)
Inductive shape (self : device) (ok : exn -> Prop) {A : Type}
          (h : list event) (r : exn + A) (new : list event) : Prop :=
| shape_clean :
    all_succeed self h new = true ->
    (forall x, r = inl x -> ok x) ->
    shape self ok h r new
| shape_failed (pre : list event) (e : event) (x : dev_error)
               (exits : list event) :
    new = pre ++ e :: exits ->
    all_succeed self h pre = true ->
    failure self (h ++ pre) e = Some x ->
    forallb is_exit exits = true ->
    r = inl (DeviceError x) ->
    shape self ok h r new.

(** A method is disciplined when every run of it only appends to the log
    and has one of the two shapes. *)
Definition disciplined (self : device) (ok : exn -> Prop) {A} (m : M A)
  : Prop :=
  forall h, exists new, snd (m h) = h ++ new /\ shape self ok h (fst (m h)) new.

(** The one exception the wrapper's explicit conversions raise. *)
Definition overflow_only (x : exn) : Prop := x = OverflowError.

(** The methods of the wrapper, each with its arguments. *)
Inductive operation : Type :=
| Download (channel_index : Z)
           (amplitudes_in_mA durations_in_ms : list Py.number)
| Download_ (channel_index : list Z) (amplitudes durations : list Z)
            (mode : string)
| SetCurrentModeOf (channel_index : list Z)
| SetVoltageModeOf (channel_index : list Z)
| StartStimulation (triggerIndex : list Z)
| StopStimulation (triggerIndex : list Z)
| DiagonalizeTriggermap
| ChannelCount
| TriginCount
| Version
| Version_
| CurrentResolutionInUA
| CurrentResolutionInMA
| CurrentRangeInMA
| CurrentRangeInUA
| VoltageResolutionInUV
| VoltageRangeInMV
| TimeResolutionInUs
| DACResolution.

(** The exception a run left with, if any, and the log it left. *)
Definition raised {A} (r : (exn + A) * list event) : option exn * list event :=
  (match fst r with inl x => Some x | inr _ => None end, snd r).

(** Running an operation, its returned value forgotten. *)
Definition perform (self : device) (op : operation) (h : list event)
  : option exn * list event :=
  match op with
  | Download c a d => raised (download self c a d h)
  | Download_ cs a d mode => raised (_download self cs a d mode h)
  | SetCurrentModeOf cs => raised (set_current_mode self cs h)
  | SetVoltageModeOf cs => raised (set_voltage_mode self cs h)
  | StartStimulation t => raised (start_stimulation self t h)
  | StopStimulation t => raised (stop_stimulation self t h)
  | DiagonalizeTriggermap => raised (diagonalize_triggermap self h)
  | ChannelCount => raised (channel_count self h)
  | TriginCount => raised (trigin_count self h)
  | Version => raised (version self h)
  | Version_ => raised (_version self h)
  | CurrentResolutionInUA => raised (current_resolution_in_uA self h)
  | CurrentResolutionInMA => raised (current_resolution_in_mA self h)
  | CurrentRangeInMA => raised (current_range_in_mA self h)
  | CurrentRangeInUA => raised (current_range_in_uA self h)
  | VoltageResolutionInUV => raised (voltage_resolution_in_uV self h)
  | VoltageRangeInMV => raised (voltage_range_in_mV self h)
  | TimeResolutionInUs => raised (time_resolution_in_us h)
  | DACResolution => raised (DAC_resolution self h)
  end.

(** The mode-set command of a destination tag. *)
Definition mode_set (tag : mode_tag) (chan : option Z) : command :=
  match tag with
  | CURRENT => SetCurrentMode chan
  | VOLTAGE => SetVoltageMode chan
  end.

(** The destination tag [_download] works with for a mode argument, if
    any. *)
Definition tag_of (mode : string) : option mode_tag :=
  if (mode =? "current")%string then Some CURRENT
  else if (mode =? "voltage")%string then Some VOLTAGE
  else None.

(** The mode-set method of a destination tag. *)
Definition set_mode (self : device) (tag : mode_tag) (chans : list Z)
  : M unit :=
  match tag with
  | CURRENT => set_current_mode self chans
  | VOLTAGE => set_voltage_mode self chans
  end.

(** Lines 288-291 and 293-296: what [_download] does once the sequences are
    converted and the mode is recognised. *)
Definition set_mode_then_transfer (self : device) (tag : mode_tag)
           (chans amplitudes durations : list Z) : M unit :=
  set_mode self tag chans ;;
  with_interface self
    (for_each chans (fun chan =>
       command_ self (PrepareAndSendData chan amplitudes durations tag))).

(** The outcome of a call that returns nothing. *)
Definition outcome_of (o : option dev_error) : exn + unit :=
  match o with Some x => inl (DeviceError x) | None => inr tt end.

(** The commands a mode set over [chans] consists of: the no-argument form
    for the empty list, one command per element otherwise. *)
Definition mode_set_commands (tag : mode_tag) (chans : list Z) : list event :=
  if Py.eq_nil chans then [Cmd (mode_set tag None)]
  else map (fun c => Cmd (mode_set tag (Some c))) chans.

(** The transfers of one sequence pair to [chans], in order. *)
Definition transfers (tag : mode_tag) (chans amplitudes durations : list Z)
  : list event :=
  map (fun c => Cmd (PrepareAndSendData c amplitudes durations tag)) chans.

(** [z] is [x] with its fractional part dropped: the integer next to [x] on
    the side of zero. *)
Definition truncation_toward_zero (x : Q) (z : Z) : Prop :=
  (0 <= x -> inject_Z z <= x /\ x < inject_Z z + 1)%Q /\
  (x <= 0 -> inject_Z z - 1 < x /\ x <= inject_Z z)%Q.

(** What a comprehension over a conversion that can raise evaluates to: the
    converted list, or the exception of the first element that fails. *)
Fixpoint convert_all {A B} (f : A -> exn + B) (l : list A) : exn + list B :=
  match l with
  | [] => inr []
  | a :: rest =>
      match f a with
      | inl x => inl x
      | inr b =>
          match convert_all f rest with
          | inl x => inl x
          | inr bs => inr (b :: bs)
          end
      end
  end.

(** ** Vocabulary of the further properties *)

(** The events that are calls on the session object, as opposed to the two
    ends of a session. *)
Definition is_call (e : event) : bool :=
  match e with Enter | Exit => false | _ => true end.

(** Reads a stretch of log as sessions.  [inside] tells whether a session is
    open before the stretch; the result is whether one is open after it, or
    [None] if the stretch is ill-formed: a call outside a session, a session
    entered inside another, a session left that was not entered, or anything
    at all after an [Enter] the device refused. *)
Fixpoint session_state (self : device) (h : list event) (inside : bool)
         (new : list event) : option bool :=
  match new with
  | [] => Some inside
  | e :: rest =>
      match e with
      | Enter =>
          if inside then None
          else match on_enter self h with
               | Some _ => match rest with [] => Some false | _ :: _ => None end
               | None => session_state self (h ++ [Enter]) true rest
               end
      | Exit =>
          if inside then session_state self (h ++ [Exit]) false rest else None
      | _ =>
          if inside then session_state self (h ++ [e]) true rest else None
      end
  end.

(** A session body: it only appends calls, and if it returns, every one of
    them succeeded. *)
Definition flat (self : device) {A} (m : M A) : Prop :=
  forall h, exists new,
    snd (m h) = h ++ new /\
    forallb is_call new = true /\
    (forall a, fst (m h) = inr a -> all_succeed self h new = true).

(** A method: started outside a session it appends whole sessions and ends
    outside a session, and if it returns, everything it asked succeeded. *)
Definition sessioned (self : device) {A} (m : M A) : Prop :=
  forall h, exists new,
    snd (m h) = h ++ new /\
    session_state self h false new = Some false /\
    (forall a, fst (m h) = inr a -> all_succeed self h new = true).

(** The commands among the events of a log, in order. *)
Definition commands (l : list event) : list command :=
  flat_map (fun e => match e with Cmd c => [c] | _ => [] end) l.

(** The four queries that take a channel index. *)
Inductive channel_query : Set :=
| QCurrentResolution | QCurrentRange | QVoltageResolution | QVoltageRange.

Definition q_at (q : channel_query) (chan : Z) : query :=
  match q with
  | QCurrentResolution => GetCurrentResolutionInNanoAmp chan
  | QCurrentRange => GetCurrentRangeInNanoAmp chan
  | QVoltageResolution => GetVoltageResolutionInMicroVolt chan
  | QVoltageRange => GetVoltageRangeInMicroVolt chan
  end.

(** The operations that read a property of the device. *)
Definition is_property (op : operation) : bool :=
  match op with
  | ChannelCount | TriginCount | Version | Version_
  | CurrentResolutionInUA | CurrentResolutionInMA
  | CurrentRangeInMA | CurrentRangeInUA
  | VoltageResolutionInUV | VoltageRangeInMV
  | TimeResolutionInUs | DACResolution => true
  | _ => false
  end.

(** The exceptions that do not come from the device. *)
Definition not_from_device (x : exn) : Prop := forall e, x <> DeviceError e.

(** ** Runs on a test double *)

Example stop_all_on_8 :
  stop_stimulation (quiet 8) [] [] =
  (inr tt, [Enter; Ask GetNumberOfAnalogChannels; Exit;
            Enter; Cmd (SendStop 255); Exit]).
Proof. reflexivity. Qed.

(** The channel count is asked anew by each call: two calls in a row on a
    device whose answer changes stop 4 and then 8 channels. *)
Example stop_all_asks_each_time :
  (stop_stimulation regrown [] ;; stop_stimulation regrown []) [] =
  (inr tt, [Enter; Ask GetNumberOfAnalogChannels; Exit;
            Enter; Cmd (SendStop 15); Exit;
            Enter; Ask GetNumberOfAnalogChannels; Exit;
            Enter; Cmd (SendStop 255); Exit]).
Proof. reflexivity. Qed.

(** The docstring's call: amplitudes [1, -1, 0] and durations
    [.1, .1, .488]. *)
Example download_docstring :
  download (quiet 8) 0 [Py.Int 1; Py.Int (-1); Py.Int 0]
           [Py.Float (Py.ratio 1 10); Py.Float (Py.ratio 1 10);
            Py.Float (Py.ratio 488 1000)] [] =
  (inr tt, [Enter; Cmd (SetCurrentMode (Some 0)); Exit;
            Enter;
            Cmd (PrepareAndSendData 0 [1000000; -1000000; 0] [100; 100; 488]
                                    CURRENT);
            Exit]).
Proof. vm_compute. reflexivity. Qed.

(** Float products as Python computes them: 0.009 mA is sent as 9000 and
    1.001 mA as 1000999; the double nearest 2147.483648 gives the product
    2^31 exactly; 1e305 times a million is infinite; 9 / 1000 is not 1000
    times 9 / 1000000. *)
Example float_products :
  Py.int (Py.mul_int (Py.Float (Py.ratio 9 1000)) 1000000) = inr 9000 /\
  Py.int (Py.mul_int (Py.Float (Py.ratio 1001 1000)) 1000000) = inr 1000999
  /\
  Py.int (Py.mul_int (Py.Float (Py.ratio 2147483648 1000000)) 1000000)
  = inr (2 ^ 31) /\
  Py.int (Py.mul_int (Py.Float (Py.float_of_Z (10 ^ 305))) 1000000)
  = inl OverflowError /\
  Py.ratio 9 1000 <>
  SFmul Py.prec Py.emax (Py.float_of_Z 1000) (Py.ratio 9 1000000).
Proof.
  split; [vm_compute; reflexivity|]. split; [vm_compute; reflexivity|].
  split; [vm_compute; reflexivity|]. split; [vm_compute; reflexivity|].
  vm_compute. discriminate.
Qed.

Example diagonalize_4 :
  diagonalize_triggermap (quiet 4) [] =
  (inr tt, [Enter; Ask GetNumberOfAnalogChannels; Exit;
            Enter; Cmd (SetupTrigger 0 [1; 2; 4; 8] [1; 2; 4; 8] [1; 1; 1; 1]);
            Exit]).
Proof. reflexivity. Qed.

Example version_string :
  version (quiet 8) [] =
  (inr "Hardware - Revision A : Software - Version: 1.0"%string,
   [Enter; GetStgVersionInfo EmptyString EmptyString; Exit]).
Proof. reflexivity. Qed.

(** The spec's examples of [toBitmask]. *)
Example bitmap_examples :
  bitmap [] = 0 /\ bitmap [0; 2; 5] = 37 /\ bitmap [2; 2] = bitmap [2].
Proof. repeat split. Qed.

(** ** Lists of events *)

Lemma forallb_is_exit_no_failure (self : device) (l pre post : list event)
      (e : event) (h : list event) :
  forallb is_exit l = true -> l = pre ++ e :: post ->
  failure self h e = None.
Proof.
  intros Hall ->. rewrite forallb_app in Hall.
  apply andb_true_iff in Hall as [_ Hall]. simpl in Hall.
  apply andb_true_iff in Hall as [He _].
  destruct e; simpl in He; try discriminate. reflexivity.
Qed.

(** ** The discipline every wrapper method follows *)

Lemma all_succeed_app self (a b h : list event) :
  all_succeed self h (a ++ b) =
  all_succeed self h a && all_succeed self (h ++ a) b.
Proof.
  revert h. induction a as [|e a IH]; intros h; simpl.
  - now rewrite app_nil_r.
  - destruct (failure self h e); [reflexivity|].
    rewrite IH, <- app_assoc. reflexivity.
Qed.

Lemma all_succeed_split self h pre e post :
  all_succeed self h (pre ++ e :: post) = true ->
  failure self (h ++ pre) e = None.
Proof.
  rewrite all_succeed_app. intros H.
  apply andb_true_iff in H as [_ H]. simpl in H.
  destruct (failure self (h ++ pre) e); [discriminate | reflexivity].
Qed.

Section Discipline.

Variable self : device.
Variable ok : exn -> Prop.

Lemma disciplined_ret {A} (a : A) : disciplined self ok (ret a).
Proof.
  intros h. exists []. simpl. rewrite app_nil_r. split; [reflexivity|].
  apply shape_clean; [reflexivity | discriminate].
Qed.

Lemma disciplined_raise {A} (x : exn) :
  ok x -> disciplined self ok (@raise A x).
Proof.
  intros Hx h. exists []. simpl. rewrite app_nil_r. split; [reflexivity|].
  apply shape_clean; [reflexivity|]. intros y [= <-]. exact Hx.
Qed.

Lemma disciplined_lift {A} (r : exn + A) :
  (forall x, r = inl x -> ok x) -> disciplined self ok (lift r).
Proof.
  intros Hr h. exists []. simpl. rewrite app_nil_r. split; [reflexivity|].
  apply shape_clean; [reflexivity | exact Hr].
Qed.

Lemma disciplined_bind {A B} (m : M A) (k : A -> M B) :
  disciplined self ok m -> (forall a, disciplined self ok (k a)) ->
  disciplined self ok (bind m k).
Proof.
  intros Hm Hk h. unfold bind.
  destruct (Hm h) as (new1 & Hlog1 & Hs1).
  destruct (m h) as [[x|a] h1] eqn:Em; simpl in *; subst h1.
  - exists new1. split; [reflexivity|].
    destruct Hs1 as [Hc Hok | pre e y exits -> Hc Hf Hex Hr].
    + apply shape_clean; [exact Hc|]. intros z [= <-]. now apply Hok.
    + injection Hr as ->.
      eapply shape_failed; eauto.
  - destruct (Hk a (h ++ new1)) as (new2 & Hlog2 & Hs2).
    exists (new1 ++ new2). rewrite Hlog2, app_assoc. split; [reflexivity|].
    destruct Hs1 as [Hc1 _ | ? ? ? ? _ _ _ _ Hr]; [|discriminate].
    destruct Hs2 as [Hc2 Hok | pre e y exits -> Hc2 Hf Hex Hr].
    + apply shape_clean; [|exact Hok].
      rewrite all_succeed_app, Hc1, Hc2. reflexivity.
    + apply shape_failed with (pre := new1 ++ pre) (e := e) (x := y)
                              (exits := exits).
      * now rewrite <- app_assoc.
      * rewrite all_succeed_app, Hc1, Hc2. reflexivity.
      * now rewrite app_assoc.
      * exact Hex.
      * exact Hr.
Qed.

Lemma disciplined_command (c : command) : disciplined self ok (command_ self c).
Proof.
  intros h. exists [Cmd c]. unfold command_.
  destruct (on_command self h c) as [x|] eqn:E; simpl.
  - split; [reflexivity|].
    apply shape_failed with (pre := []) (e := Cmd c) (x := x) (exits := []);
      try reflexivity.
    rewrite app_nil_r. exact E.
  - split; [reflexivity|]. apply shape_clean; [|discriminate].
    simpl. now rewrite E.
Qed.

Lemma disciplined_ask (q : query) : disciplined self ok (ask self q).
Proof.
  intros h. exists [Ask q]. unfold ask.
  destruct (on_query self h q) as [x|v] eqn:E; simpl.
  - split; [reflexivity|].
    apply shape_failed with (pre := []) (e := Ask q) (x := x) (exits := []);
      try reflexivity.
    rewrite app_nil_r. simpl. now rewrite E.
  - split; [reflexivity|]. apply shape_clean; [|discriminate].
    simpl. now rewrite E.
Qed.

Lemma disciplined_ask_version (a b : string) :
  disciplined self ok (ask_version self a b).
Proof.
  intros h. exists [GetStgVersionInfo a b]. unfold ask_version.
  destruct (on_version self h a b) as [x|v] eqn:E; simpl.
  - split; [reflexivity|].
    apply shape_failed
      with (pre := []) (e := GetStgVersionInfo a b) (x := x) (exits := []);
      try reflexivity.
    rewrite app_nil_r. simpl. now rewrite E.
  - split; [reflexivity|]. apply shape_clean; [|discriminate].
    simpl. now rewrite E.
Qed.

Lemma disciplined_with_interface {A} (body : M A) :
  disciplined self ok body -> disciplined self ok (with_interface self body).
Proof.
  intros Hb h. unfold with_interface.
  destruct (on_enter self h) as [x|] eqn:E.
  - exists [Enter]. simpl. split; [reflexivity|].
    apply shape_failed with (pre := []) (e := Enter) (x := x) (exits := []);
      try reflexivity.
    rewrite app_nil_r. exact E.
  - destruct (Hb (h ++ [Enter])) as (new & Hlog & Hs).
    destruct (body (h ++ [Enter])) as [r h1]. simpl in *. subst h1.
    exists (Enter :: new ++ [Exit]). split.
    + now rewrite <- !app_assoc.
    + destruct Hs as [Hc Hok | pre e y exits -> Hc Hf Hex Hr].
      * apply shape_clean; [|exact Hok]. simpl. rewrite E.
        rewrite all_succeed_app, Hc. reflexivity.
      * apply shape_failed with (pre := Enter :: pre) (e := e) (x := y)
                                (exits := exits ++ [Exit]).
        -- simpl. now rewrite <- app_assoc.
        -- simpl. now rewrite E.
        -- replace (h ++ Enter :: pre) with ((h ++ [Enter]) ++ pre)
             by now rewrite <- app_assoc.
           exact Hf.
        -- rewrite forallb_app, Hex. reflexivity.
        -- exact Hr.
Qed.

Lemma disciplined_for_each {A} (l : list A) (body : A -> M unit) :
  (forall a, disciplined self ok (body a)) ->
  disciplined self ok (for_each l body).
Proof.
  intros Hb. induction l as [|a l IH]; simpl.
  - apply disciplined_ret.
  - apply disciplined_bind; [apply Hb | intros _; exact IH].
Qed.

Lemma disciplined_comprehension {A B} (f : A -> M B) (l : list A) :
  (forall a, disciplined self ok (f a)) ->
  disciplined self ok (comprehension f l).
Proof.
  intros Hf. induction l as [|a l IH]; simpl.
  - apply disciplined_ret.
  - apply disciplined_bind; [apply Hf|]. intros b.
    apply disciplined_bind; [exact IH|]. intros bs. apply disciplined_ret.
Qed.

End Discipline.

Lemma disciplined_weaken self (ok ok' : exn -> Prop) {A} (m : M A) :
  (forall x, ok x -> ok' x) -> disciplined self ok m -> disciplined self ok' m.
Proof.
  intros Hw Hm h. destruct (Hm h) as (new & Hlog & Hs).
  exists new. split; [exact Hlog|].
  destruct Hs as [Hc Hok | pre e y exits Hn Hc Hf Hex Hr].
  - apply shape_clean; auto.
  - eapply shape_failed; eauto.
Qed.

(** ** The explicit conversions raise nothing but [OverflowError] *)
Lemma Int32_inr a : in_Int32 a = true -> Int32 a = inr a.
Proof. unfold Int32. now intros ->. Qed.

Lemma UInt32_inr a : in_UInt32 a = true -> UInt32 a = inr a.
Proof. unfold UInt32. now intros ->. Qed.

Lemma UInt64_inr a : in_UInt64 a = true -> UInt64 a = inr a.
Proof. unfold UInt64. now intros ->. Qed.

Lemma Int32_raises a x : Int32 a = inl x -> overflow_only x.
Proof. unfold Int32. destruct (in_Int32 a); [discriminate|]. now intros [= <-]. Qed.

Lemma UInt32_raises a x : UInt32 a = inl x -> overflow_only x.
Proof. unfold UInt32. destruct (in_UInt32 a); [discriminate|]. now intros [= <-]. Qed.

Lemma UInt64_raises a x : UInt64 a = inl x -> overflow_only x.
Proof. unfold UInt64. destruct (in_UInt64 a); [discriminate|]. now intros [= <-]. Qed.

Lemma UInt32_returns a c : UInt32 a = inr c -> c = a /\ in_UInt32 a = true.
Proof.
  unfold UInt32. destruct (in_UInt32 a); [|discriminate].
  intros [= <-]. now split.
Qed.

Lemma truediv_raises a b x : Py.truediv a b = inl x -> overflow_only x.
Proof.
  unfold Py.truediv. destruct (Py.ratio a b); try discriminate.
  now intros [= <-].
Qed.

Create HintDb discipline.
#[export] Hint Resolve disciplined_ret disciplined_command disciplined_ask
  disciplined_ask_version : discipline.
#[export] Hint Resolve Int32_raises UInt32_raises UInt64_raises
  truediv_raises : discipline.

(** Walks a method body built from the monad's combinators. *)
Ltac discipline :=
  repeat first
    [ progress intros
    | apply disciplined_bind
    | apply disciplined_with_interface
    | apply disciplined_for_each
    | apply disciplined_comprehension
    | apply disciplined_lift; solve [eauto with discipline | intros; exact I]
    | solve [auto with discipline]
    | match goal with
      | |- disciplined _ _ (if ?b then _ else _) => destruct b
      | |- disciplined _ _ (let '(_, _) := ?p in _) => destruct p
      end ].

Section MethodsDisciplined.

Variable self : device.

Lemma set_current_mode_disciplined chans :
  disciplined self overflow_only (set_current_mode self chans).
Proof. unfold set_current_mode. discipline. Qed.

Lemma set_voltage_mode_disciplined chans :
  disciplined self overflow_only (set_voltage_mode self chans).
Proof. unfold set_voltage_mode. discipline. Qed.

Lemma channel_count_disciplined :
  disciplined self overflow_only (channel_count self).
Proof. unfold channel_count. discipline. Qed.

Lemma stop_stimulation_disciplined t :
  disciplined self overflow_only (stop_stimulation self t).
Proof. unfold stop_stimulation, channel_count. discipline. Qed.

Lemma start_stimulation_disciplined t :
  disciplined self overflow_only (start_stimulation self t).
Proof. unfold start_stimulation, channel_count. discipline. Qed.

Lemma diagonalize_triggermap_disciplined :
  disciplined self overflow_only (diagonalize_triggermap self).
Proof. unfold diagonalize_triggermap, channel_count. discipline. Qed.

Lemma properties_disciplined :
  disciplined self overflow_only (version self) /\
  disciplined self overflow_only (_version self) /\
  disciplined self overflow_only (current_resolution_in_uA self) /\
  disciplined self overflow_only (current_resolution_in_mA self) /\
  disciplined self overflow_only (current_range_in_mA self) /\
  disciplined self overflow_only (current_range_in_uA self) /\
  disciplined self overflow_only (voltage_resolution_in_uV self) /\
  disciplined self overflow_only (voltage_range_in_mV self) /\
  disciplined self overflow_only time_resolution_in_us /\
  disciplined self overflow_only (DAC_resolution self) /\
  disciplined self overflow_only (trigin_count self).
Proof.
  unfold version, _version, current_resolution_in_uA, current_resolution_in_mA,
    current_range_in_mA, current_range_in_uA, voltage_resolution_in_uV,
    voltage_range_in_mV, time_resolution_in_us, DAC_resolution, trigin_count.
  repeat split; discipline.
Qed.

(** With sequences of one length, [_download] is past its own check, and
    what is left raises nothing of its own. *)
Lemma _download_disciplined chans amps durs mode :
  List.length amps = List.length durs ->
  disciplined self overflow_only (_download self chans amps durs mode).
Proof.
  intros Hlen. unfold _download.
  rewrite (proj2 (Nat.eqb_eq _ _) Hlen). cbn [negb]. cbv iota.
  unfold set_current_mode, set_voltage_mode. discipline.
Qed.

(** Whatever the lengths, a device failure is the only way a device error
    comes out of [_download]. *)
Lemma _download_disciplined_any chans amps durs mode :
  disciplined self (fun _ => True) (_download self chans amps durs mode).
Proof.
  destruct (Nat.eq_dec (List.length amps) (List.length durs)) as [Hlen|Hlen].
  - eapply disciplined_weaken; [|now apply _download_disciplined].
    intros; exact I.
  - unfold _download.
    rewrite (proj2 (Nat.eqb_neq _ _) Hlen). cbn [negb]. cbv iota.
    now apply disciplined_raise.
Qed.

(** What [int()] raises: [OverflowError] on an infinity, [ValueError] on a
    NaN. *)
Lemma int_raises (a : Py.number) x :
  Py.int a = inl x -> x = OverflowError \/ exists msg, x = ValueError msg.
Proof.
  destruct a as [z|[s|s| |s m e]]; simpl; intros [= <-]; eauto.
Qed.

(** [download] adds its conversions in front of [_download]: whatever is
    allowed to come out of the wrapper's own code must include their two
    exceptions. *)
Lemma download_disciplined_with (ok : exn -> Prop) chan amps durs :
  ok OverflowError -> (forall msg, ok (ValueError msg)) ->
  disciplined self ok (download self chan amps durs).
Proof.
  intros Hov Hval.
  assert (Hint : forall a x, Py.int a = inl x -> ok x).
  { intros a x Hx. destruct (int_raises a x Hx) as [->|[msg ->]]; auto. }
  unfold download.
  apply disciplined_bind.
  { apply disciplined_comprehension. intros a. apply disciplined_lift.
    apply Hint. }
  intros amplitudes. apply disciplined_bind.
  { apply disciplined_comprehension. intros a. apply disciplined_lift.
    apply Hint. }
  intros durations.
  destruct (Nat.eq_dec (List.length amplitudes) (List.length durations))
    as [Hlen|Hlen].
  - eapply disciplined_weaken; [|now apply _download_disciplined].
    now intros x ->.
  - unfold _download.
    rewrite (proj2 (Nat.eqb_neq _ _) Hlen). cbn [negb]. cbv iota.
    apply disciplined_raise. apply Hval.
Qed.

End MethodsDisciplined.

(** ** A device failure is the operation's failure *)

Lemma shape_failure_propagates self ok {A} h (r : exn + A) new pre e post x :
  shape self ok h r new ->
  new = pre ++ e :: post ->
  failure self (h ++ pre) e = Some x ->
  r = inl (DeviceError x) /\ forallb is_exit post = true /\
  all_succeed self h pre = true.
Proof.
  intros Hs Hn Hf.
  destruct Hs as [Hc _ | pre' e' y exits Hn' Hc Hf' Hex Hr].
  - subst new. rewrite (all_succeed_split _ _ _ _ _ Hc) in Hf. discriminate.
  - subst new.
    apply app_eq_app in Hn as [l [[Hp Hq] | [Hp Hq]]].
    + (* the failing event is at or before the one named *)
      destruct l as [|e0 l].
      * rewrite app_nil_r in Hp. subst pre'. simpl in Hq.
        injection Hq as <- <-. rewrite Hf in Hf'. injection Hf' as <-.
        auto.
      * simpl in Hq. injection Hq as <- Hq. subst pre'.
        rewrite (all_succeed_split _ _ _ _ _ Hc) in Hf. discriminate.
    + (* the failing event is at or after the one named *)
      destruct l as [|e0 l].
      * rewrite app_nil_r in Hp. subst pre. simpl in Hq.
        injection Hq as <- <-. rewrite Hf in Hf'. injection Hf' as <-.
        auto.
      * simpl in Hq. injection Hq as <- Hq. subst pre.
        rewrite (forallb_is_exit_no_failure self exits l post e _ Hex Hq)
          in Hf.
        discriminate.
Qed.

Lemma perform_disciplined self op :
  exists A (m : M A),
    (forall h, perform self op h = raised (m h)) /\
    disciplined self (fun _ => True) m.
Proof.
  pose proof (properties_disciplined self)
    as (P0 & P1 & P2 & P3 & P4 & P5 & P6 & P7 & P8 & P9 & P10).
  assert (W : forall A (m : M A),
             disciplined self overflow_only m ->
             disciplined self (fun _ => True) m).
  { intros A m. apply disciplined_weaken. intros; exact I. }
  destruct op; simpl; eexists; eexists; (split; [intros h; reflexivity|]);
    first [ apply _download_disciplined_any
          | apply download_disciplined_with; intros; exact I
          | apply W;
            first [ apply set_current_mode_disciplined
                  | apply set_voltage_mode_disciplined
                  | apply start_stimulation_disciplined
                  | apply stop_stimulation_disciplined
                  | apply diagonalize_triggermap_disciplined
                  | apply channel_count_disciplined
                  | assumption ] ].
Qed.

(** C8. Whatever operation of the wrapper runs (download, start, stop,
    mode set, trigger-map setup, property queries) on whatever device: the log
    only grows, and if the device answers any event of the run with an
    error, the operation leaves with exactly that error, carried in
    [DeviceError] as the device gave it; every event before the failing one
    had succeeded, and after it nothing is asked of the device again: all
    that follows is sessions being left. *)
Theorem device_failure_propagates :
  forall (self : device) (op : operation) (h : list event),
    (exists new, snd (perform self op h) = h ++ new) /\
    (forall pre e post x,
        snd (perform self op h) = h ++ pre ++ e :: post ->
        failure self (h ++ pre) e = Some x ->
        fst (perform self op h) = Some (DeviceError x) /\
        forallb is_exit post = true /\
        all_succeed self h pre = true).
Proof.
  intros self op h.
  destruct (perform_disciplined self op) as (A & m & Hp & Hm).
  rewrite Hp. destruct (Hm h) as (new & Hlog & Hs).
  unfold raised. simpl. split; [now exists new|].
  intros pre e post x Hsplit Hf.
  rewrite Hlog in Hsplit. apply app_inv_head in Hsplit.
  destruct (shape_failure_propagates _ _ _ _ _ _ _ _ _ Hs Hsplit Hf)
    as (Hr & Hex & Hc).
  rewrite Hr. auto.
Qed.

(** A transfer rejected by the device: the error comes out as it is, after
    one mode set and one transfer, with no second attempt. *)
Lemma device_failure_propagates_witness :
  fst (perform (rejecting 8 is_transfer_command "usb"%string)
               (Download 0 [Py.Int 1] [Py.Int 1]) [])
  = Some (DeviceError "usb"%string) /\
  forallb is_exit [Exit] = true /\
  all_succeed (rejecting 8 is_transfer_command "usb"%string) []
              [Enter; Cmd (SetCurrentMode (Some 0)); Exit; Enter] = true.
Proof.
  apply (proj2 (device_failure_propagates
                  (rejecting 8 is_transfer_command "usb"%string)
                  (Download 0 [Py.Int 1] [Py.Int 1]) [])
               [Enter; Cmd (SetCurrentMode (Some 0)); Exit; Enter]
               (Cmd (PrepareAndSendData 0 [1000000] [1000] CURRENT))
               [Exit] "usb"%string).
  - reflexivity.
  - reflexivity.
Defined.

(** ** What the loops leave in the log *)

Lemma app_split_not_in {A} (a b pre post : list A) (x : A) :
  a ++ b = pre ++ x :: post -> ~ In x a ->
  exists pre', pre = a ++ pre' /\ b = pre' ++ x :: post.
Proof.
  intros Heq Hnin.
  apply app_eq_app in Heq as [l [[Hp Hq] | [Hp Hq]]].
  - destruct l as [|y l].
    + exists []. rewrite app_nil_r in *. simpl in Hq. now subst.
    + simpl in Hq. injection Hq as <- _. exfalso. apply Hnin.
      rewrite Hp. apply in_or_app. right. now left.
  - exists l. now split.
Qed.

Lemma In_firstn {A} (k : nat) (l : list A) (x : A) :
  In x (firstn k l) -> In x l.
Proof.
  revert l. induction k as [|k IH]; intros [|y l]; simpl; try tauto.
  intros [->|H]; [now left | right; now apply IH].
Qed.

Lemma for_each_ext {A} (l : list A) (f g : A -> M unit) :
  (forall a h, f a h = g a h) ->
  forall h, for_each l f h = for_each l g h.
Proof.
  intros Hfg. induction l as [|a l IH]; intros h; simpl; [reflexivity|].
  unfold bind. rewrite Hfg. destruct (g a h) as [[x|[]] h1]; [reflexivity|].
  apply IH.
Qed.

(** A comprehension whose element expression is a range-checked conversion
    leaves the log alone; it gives the list back if every element is in
    range and raises [OverflowError] otherwise. *)
Lemma comprehension_checked (inb : Z -> bool) (l : list Z) h :
  comprehension
    (fun a => lift (if inb a then inr a else inl OverflowError)) l h =
  (if forallb inb l then inr l else inl OverflowError, h).
Proof.
  induction l as [|a l IH]; simpl; [reflexivity|].
  unfold bind at 1, lift at 1. destruct (inb a); [|reflexivity].
  unfold bind at 1. rewrite IH. simpl.
  now destruct (forallb inb l).
Qed.

Section Loops.

Variable self : device.

Lemma for_each_cons {A} (a : A) (l : list A) (body : A -> M unit) h :
  for_each (a :: l) body h =
  match body a h with
  | (inl x, h1) => (inl x, h1)
  | (inr _, h1) => for_each l body h1
  end.
Proof. reflexivity. Qed.

Lemma convert_then_command (conv : Z -> exn + Z) (g : Z -> command) a h :
  (c <- lift (conv a) ;; command_ self (g c)) h =
  match conv a with
  | inl x => (inl x, h)
  | inr c =>
      match on_command self h (g c) with
      | Some x => (inl (DeviceError x), h ++ [Cmd (g c)])
      | None => (inr tt, h ++ [Cmd (g c)])
      end
  end.
Proof. unfold bind, lift, command_. now destruct (conv a). Qed.

(** A loop that converts each element and hands it to one command: the log
    grows by the commands of a prefix of the list, the whole list if the
    loop returns. *)
Lemma for_each_commands_log (conv : Z -> exn + Z) (g : Z -> command) :
  (forall a c, conv a = inr c -> c = a) ->
  forall l h,
    exists k,
      snd (for_each l (fun chan => c <- lift (conv chan) ;;
                                   command_ self (g c)) h)
      = h ++ map (fun c => Cmd (g c)) (firstn k l) /\
      (fst (for_each l (fun chan => c <- lift (conv chan) ;;
                                    command_ self (g c)) h) = inr tt ->
       firstn k l = l).
Proof.
  intros Hconv. induction l as [|a l IH]; intros h.
  - exists 0%nat. simpl. rewrite app_nil_r. auto.
  - rewrite for_each_cons, convert_then_command.
    destruct (conv a) as [x|c] eqn:Ea.
    + exists 0%nat. simpl. rewrite app_nil_r. split; [reflexivity|discriminate].
    + rewrite (Hconv _ _ Ea).
      destruct (on_command self h (g a)) as [x|].
      * exists 1%nat. simpl. split; [reflexivity|discriminate].
      * destruct (IH (h ++ [Cmd (g a)])) as (k & Hlog & Hret).
        exists (S k). rewrite Hlog, <- app_assoc. simpl.
        split; [reflexivity|]. intros Hr. now rewrite (Hret Hr).
Qed.

(** The same loop on a device that accepts every command, over elements
    the conversion keeps. *)
Lemma for_each_commands_accepted (conv : Z -> exn + Z) (g : Z -> command) :
  (forall h c, on_command self h c = None) ->
  forall l h,
    Forall (fun a => conv a = inr a) l ->
    for_each l (fun chan => c <- lift (conv chan) ;; command_ self (g c)) h
    = (inr tt, h ++ map (fun c => Cmd (g c)) l).
Proof.
  intros Hacc l. induction l as [|a l IH]; intros h Hall.
  - simpl. unfold ret. now rewrite app_nil_r.
  - inversion Hall as [|? ? Ha Hl]; subst.
    rewrite for_each_cons, convert_then_command, Ha, Hacc, (IH _ Hl),
      <- app_assoc.
    reflexivity.
Qed.

End Loops.

(** ** [_download] past its conversions *)

Lemma _download_cases self chans amps durs mode h :
  List.length amps = List.length durs ->
  _download self chans amps durs mode h =
  if forallb in_Int32 amps && forallb in_UInt64 durs then
    match tag_of mode with
    | Some tag => set_mode_then_transfer self tag chans amps durs h
    | None => (inr tt, h)
    end
  else (inl OverflowError, h).
Proof.
  intros Hlen. unfold _download.
  rewrite (proj2 (Nat.eqb_eq _ _) Hlen). cbn [negb]. cbv iota.
  unfold Int32, UInt64.
  unfold bind at 1. cbv beta. rewrite comprehension_checked.
  destruct (forallb in_Int32 amps); [|reflexivity].
  unfold bind at 1. cbv beta. rewrite comprehension_checked.
  destruct (forallb in_UInt64 durs); [|reflexivity].
  unfold tag_of. cbn [andb].
  destruct (mode =? "current")%string; [reflexivity|].
  destruct (mode =? "voltage")%string; reflexivity.
Qed.

Lemma _download_converted self chans amps durs mode h :
  List.length amps = List.length durs ->
  forallb in_Int32 amps = true ->
  forallb in_UInt64 durs = true ->
  _download self chans amps durs mode h =
  match tag_of mode with
  | Some tag => set_mode_then_transfer self tag chans amps durs h
  | None => (inr tt, h)
  end.
Proof.
  intros Hlen Ha Hd. now rewrite (_download_cases _ _ _ _ _ _ Hlen), Ha, Hd.
Qed.

(** ** The check that comes first *)

Lemma download_length_mismatch_log self h :
  (forall chans amps durs mode,
      List.length amps <> List.length durs ->
      _download self chans amps durs mode h =
      (inl (ValueError "Every amplitude needs a duration and vice versa!"),
       h)).
Proof.
  intros chans amps durs mode Hlen. unfold _download.
  now rewrite (proj2 (Nat.eqb_neq _ _) Hlen).
Qed.

(** ** The length check of [_download] *)



(** ** An unrecognised mode *)

(** C9, as stated, fails: one amplitude beyond the 32-bit range, one
    duration, a mode that is neither "current" nor "voltage".  The call does
    not return normally; it leaves with [OverflowError]. *)
Lemma unknown_mode_counterexample :
  List.length [2 ^ 31] = List.length [0] /\
  "charge"%string <> "current"%string /\
  "charge"%string <> "voltage"%string /\
  _download (quiet 8) [0] [2 ^ 31] [0] "charge" [] = (inl OverflowError, []).
Proof.
  split; [reflexivity|].
  split; [discriminate|].
  split; [discriminate|].
  reflexivity.
Qed.

(** C9, amended.  With amplitude and duration sequences of one length, every
    amplitude in the range of [Int32] and every duration in the range of
    [UInt64], and a mode that is neither "current" nor "voltage", [_download]
    returns normally and the log is the one it started from: no session, no
    mode set, no transfer. *)
Theorem unknown_mode_is_silent :
  forall (self : device) chans amps durs (mode : string) (h : list event),
    List.length amps = List.length durs ->
    forallb in_Int32 amps = true ->
    forallb in_UInt64 durs = true ->
    mode <> "current"%string ->
    mode <> "voltage"%string ->
    _download self chans amps durs mode h = (inr tt, h).
Proof.
  intros self chans amps durs mode h Hlen Ha Hd Hc Hv.
  rewrite (_download_converted _ _ _ _ _ _ Hlen Ha Hd). unfold tag_of.
  apply String.eqb_neq in Hc, Hv. now rewrite Hc, Hv.
Qed.

Lemma unknown_mode_is_silent_witness :
  _download (quiet 8) [0; 1] [1000000; -1000000] [100; 100] "charge" [] =
  (inr tt, []).
Proof.
  apply (unknown_mode_is_silent (quiet 8) [0; 1] [1000000; -1000000]
                                [100; 100] "charge" []);
    first [reflexivity | discriminate].
Defined.

(** ** Sessions holding a single call *)

Lemma with_interface_command self (c : command) h :
  with_interface self (command_ self c) h =
  match on_enter self h with
  | Some x => (inl (DeviceError x), h ++ [Enter])
  | None => (outcome_of (on_command self (h ++ [Enter]) c),
             h ++ [Enter; Cmd c; Exit])
  end.
Proof.
  unfold with_interface, command_, outcome_of.
  destruct (on_enter self h); [reflexivity|].
  destruct (on_command self (h ++ [Enter]) c);
    now rewrite <- !app_assoc.
Qed.

Lemma with_interface_no_iteration {A} self (body : A -> M unit) h :
  with_interface self (for_each [] body) h =
  match on_enter self h with
  | Some x => (inl (DeviceError x), h ++ [Enter])
  | None => (inr tt, h ++ [Enter; Exit])
  end.
Proof.
  unfold with_interface. simpl.
  destruct (on_enter self h); [reflexivity|]. now rewrite <- !app_assoc.
Qed.

Lemma channel_count_answered self h n :
  on_enter self h = None ->
  on_query self (h ++ [Enter]) GetNumberOfAnalogChannels = inr n ->
  channel_count self h =
  (inr n, h ++ [Enter; Ask GetNumberOfAnalogChannels; Exit]).
Proof.
  intros Hen Hq. unfold channel_count, bind, with_interface, ask, ret.
  rewrite Hen, Hq. now rewrite <- !app_assoc.
Qed.

(** ** Runs on a device that accepts everything *)

Lemma UInt32_all chans :
  forallb in_UInt32 chans = true -> Forall (fun a => UInt32 a = inr a) chans.
Proof.
  rewrite forallb_forall, Forall_forall. intros H a Ha.
  now apply UInt32_inr, H.
Qed.

Lemma set_mode_accepted self tag chans h :
  cooperative self ->
  forallb in_UInt32 chans = true ->
  set_mode self tag chans h =
  (inr tt, h ++ [Enter] ++ mode_set_commands tag chans ++ [Exit]).
Proof.
  intros (Hen & Hcmd & _) Hch.
  unfold mode_set_commands.
  destruct tag; simpl; unfold set_current_mode, set_voltage_mode;
    destruct chans as [|c chans]; cbn [Py.eq_nil]; unfold with_interface;
    rewrite Hen.
  - unfold command_. rewrite Hcmd. now rewrite <- !app_assoc.
  - rewrite (for_each_commands_accepted self UInt32
               (fun c => SetCurrentMode (Some c)) Hcmd _ _ (UInt32_all _ Hch)).
    now rewrite <- !app_assoc.
  - unfold command_. rewrite Hcmd. now rewrite <- !app_assoc.
  - rewrite (for_each_commands_accepted self UInt32
               (fun c => SetVoltageMode (Some c)) Hcmd _ _ (UInt32_all _ Hch)).
    now rewrite <- !app_assoc.
Qed.

Lemma transfer_loop_accepted self tag chans amps durs h :
  cooperative self ->
  with_interface self
    (for_each chans (fun chan =>
       command_ self (PrepareAndSendData chan amps durs tag))) h =
  (inr tt, h ++ [Enter] ++ transfers tag chans amps durs ++ [Exit]).
Proof.
  intros (Hen & Hcmd & _). unfold with_interface. rewrite Hen.
  rewrite (for_each_ext chans _
             (fun chan => c <- lift (inr chan) ;;
                          command_ self (PrepareAndSendData c amps durs tag)))
    by reflexivity.
  rewrite (for_each_commands_accepted self (@inr exn Z)
             (fun c => PrepareAndSendData c amps durs tag) Hcmd).
  - unfold transfers. now rewrite <- !app_assoc.
  - apply Forall_forall. reflexivity.
Qed.

Lemma set_mode_then_transfer_accepted self tag chans amps durs h :
  cooperative self ->
  forallb in_UInt32 chans = true ->
  set_mode_then_transfer self tag chans amps durs h =
  (inr tt,
   h ++ [Enter] ++ mode_set_commands tag chans ++ [Exit] ++
     [Enter] ++ transfers tag chans amps durs ++ [Exit]).
Proof.
  intros Hco Hch. unfold set_mode_then_transfer, bind.
  rewrite (set_mode_accepted _ _ _ _ Hco Hch).
  rewrite (transfer_loop_accepted _ _ _ _ _ _ Hco).
  now rewrite <- !app_assoc.
Qed.

Lemma quiet_cooperative n : cooperative (quiet n).
Proof. repeat split; simpl; eauto. Qed.

(** ** One mode set and one transfer per named channel *)

(** C7, as stated, fails: one amplitude of 2^31 device units (outside the
    32-bit range) with one duration, for channel 0, on a device that accepts
    everything.  The call does not complete: it leaves with
    [OverflowError] and the device has been asked nothing.  The same happens
    through [download] with an amplitude of 3000 mA.  And with amplitudes in
    range but a mode other than "current" and "voltage", the call returns
    without a mode set or a transfer for the channel it names. *)
Lemma one_mode_set_one_transfer_counterexample :
  cooperative (quiet 8) /\
  List.length [2 ^ 31] = List.length [0] /\
  [0] <> [] /\
  _download (quiet 8) [0] [2 ^ 31] [0] "current" [] = (inl OverflowError, [])
  /\
  download (quiet 8) 0 [Py.Float (Py.float_of_Z 3000)]
           [Py.Float (Py.float_of_Z 1)] [] = (inl OverflowError, []) /\
  _download (quiet 8) [0] [1000000] [100] "charge" [] = (inr tt, []).
Proof.
  split; [apply quiet_cooperative|].
  split; [reflexivity|].
  split; [discriminate|].
  split; [reflexivity|].
  split; [vm_compute; reflexivity | reflexivity].
Qed.

(** C7, amended.  On a device that accepts every call, for amplitude and
    duration sequences of one length, every amplitude in the range of
    [Int32], every duration in the range of [UInt64], a non-empty list of
    channels each in the range of [UInt32], and the mode "current" or
    "voltage", [_download] returns normally and asks the device, in one
    session, for one mode set per named channel and then, in a second
    session, for one transfer per named channel, both in the order the
    channels are given. *)
Theorem one_mode_set_one_transfer_per_channel :
  forall (self : device) chans amps durs (mode : string) (tag : mode_tag)
         (h : list event),
    cooperative self ->
    chans <> [] ->
    List.length amps = List.length durs ->
    forallb in_Int32 amps = true ->
    forallb in_UInt64 durs = true ->
    forallb in_UInt32 chans = true ->
    tag_of mode = Some tag ->
    _download self chans amps durs mode h =
    (inr tt,
     h ++ [Enter]
       ++ map (fun c => Cmd (mode_set tag (Some c))) chans
       ++ [Exit] ++ [Enter]
       ++ map (fun c => Cmd (PrepareAndSendData c amps durs tag)) chans
       ++ [Exit]).
Proof.
  intros self chans amps durs mode tag h Hco Hne Hlen Ha Hd Hch Htag.
  rewrite (_download_converted _ _ _ _ _ _ Hlen Ha Hd), Htag.
  rewrite (set_mode_then_transfer_accepted _ _ _ _ _ _ Hco Hch).
  unfold mode_set_commands, transfers.
  destruct chans; [contradiction | reflexivity].
Qed.

Lemma one_mode_set_one_transfer_per_channel_witness :
  _download (quiet 8) [2; 0] [1000000; -1000000] [100; 100] "voltage" [] =
  (inr tt,
   [Enter; Cmd (SetVoltageMode (Some 2)); Cmd (SetVoltageMode (Some 0)); Exit;
    Enter;
    Cmd (PrepareAndSendData 2 [1000000; -1000000] [100; 100] VOLTAGE);
    Cmd (PrepareAndSendData 0 [1000000; -1000000] [100; 100] VOLTAGE);
    Exit]).
Proof.
  apply (one_mode_set_one_transfer_per_channel
           (quiet 8) [2; 0] [1000000; -1000000] [100; 100] "voltage" VOLTAGE []);
    first [apply quiet_cooperative | discriminate | reflexivity].
Defined.

(** ** The empty channel list *)

(** C10, as stated, fails: an empty channel list, one amplitude of 2^31
    device units with one duration, mode "current", on a device that accepts
    everything.  No mode is set: the call leaves with [OverflowError] before
    the device is asked anything. *)
Lemma empty_channel_list_counterexample :
  cooperative (quiet 8) /\
  List.length [2 ^ 31] = List.length [0] /\
  _download (quiet 8) [] [2 ^ 31] [0] "current" [] = (inl OverflowError, []).
Proof.
  split; [apply quiet_cooperative|]. split; reflexivity.
Qed.

(** C10, amended.  With an empty channel list, amplitude and duration
    sequences of one length, every amplitude in the range of [Int32] and
    every duration in the range of [UInt64], and the mode "current" or
    "voltage": whatever the device answers, [_download] asks for no transfer;
    if the first session opens, the first thing asked in it is the
    no-argument mode set, the one for all channels; and on a device that
    accepts everything the call returns normally after that mode set and an
    empty second session. *)
Theorem empty_channel_list_sets_all_channels :
  forall (self : device) amps durs (mode : string) (tag : mode_tag)
         (h : list event),
    List.length amps = List.length durs ->
    forallb in_Int32 amps = true ->
    forallb in_UInt64 durs = true ->
    tag_of mode = Some tag ->
    exists new,
      snd (_download self [] amps durs mode h) = h ++ new /\
      forallb (fun e => negb (is_transfer e)) new = true /\
      (on_enter self h = None ->
       exists rest, new = [Enter; Cmd (mode_set tag None); Exit] ++ rest) /\
      (cooperative self ->
       fst (_download self [] amps durs mode h) = inr tt /\
       new = [Enter; Cmd (mode_set tag None); Exit; Enter; Exit]).
Proof.
  intros self amps durs mode tag h Hlen Ha Hd Htag.
  rewrite (_download_converted _ _ _ _ _ _ Hlen Ha Hd), Htag.
  unfold set_mode_then_transfer, bind.
  assert (Hset : set_mode self tag [] h =
                 with_interface self (command_ self (mode_set tag None)) h)
    by now destruct tag.
  rewrite Hset, with_interface_command.
  destruct (on_enter self h) as [x|] eqn:E1.
  { exists [Enter]. simpl.
    split; [reflexivity|]. split; [reflexivity|].
    split; [discriminate|].
    intros (Hen & _). rewrite Hen in E1. discriminate. }
  destruct (on_command self (h ++ [Enter]) (mode_set tag None)) as [x|] eqn:E2.
  { exists [Enter; Cmd (mode_set tag None); Exit]. simpl.
    split; [reflexivity|]. split; [now destruct tag|].
    split; [intros _; now exists []|].
    intros (_ & Hcmd & _). rewrite Hcmd in E2. discriminate. }
  cbn [outcome_of]. rewrite with_interface_no_iteration.
  destruct (on_enter self (h ++ [Enter; Cmd (mode_set tag None); Exit]))
    as [x|] eqn:E3.
  { exists [Enter; Cmd (mode_set tag None); Exit; Enter]. simpl.
    rewrite <- !app_assoc.
    split; [reflexivity|]. split; [now destruct tag|].
    split; [intros _; now exists [Enter]|].
    intros (Hen & _). rewrite Hen in E3. discriminate. }
  exists [Enter; Cmd (mode_set tag None); Exit; Enter; Exit]. simpl.
  rewrite <- !app_assoc.
  split; [reflexivity|]. split; [now destruct tag|].
  split; [intros _; now exists [Enter; Exit]|].
  intros _. now split.
Qed.

Lemma empty_channel_list_sets_all_channels_witness :
  exists new,
    snd (_download (quiet 8) [] [1000000] [100] "current" []) = [] ++ new /\
    forallb (fun e => negb (is_transfer e)) new = true /\
    (on_enter (quiet 8) [] = None ->
     exists rest, new = [Enter; Cmd (mode_set CURRENT None); Exit] ++ rest) /\
    (cooperative (quiet 8) ->
     fst (_download (quiet 8) [] [1000000] [100] "current" []) = inr tt /\
     new = [Enter; Cmd (mode_set CURRENT None); Exit; Enter; Exit]).
Proof.
  apply (empty_channel_list_sets_all_channels
           (quiet 8) [1000000] [100] "current" CURRENT []); reflexivity.
Defined.

(** ** The mode set comes before the transfer *)

Lemma shape_prefix_succeeds self ok {A} h (r : exn + A) new pre e post :
  shape self ok h r new ->
  new = pre ++ e :: post ->
  is_exit e = false ->
  all_succeed self h pre = true.
Proof.
  intros Hs Hn He.
  destruct Hs as [Hc _ | pre' e' y exits Hn' Hc Hf' Hex Hr].
  - subst new. rewrite all_succeed_app in Hc.
    now apply andb_true_iff in Hc as [Hc _].
  - subst new.
    apply app_eq_app in Hn as [l [[Hp Hq] | [Hp Hq]]].
    + subst pre'. rewrite all_succeed_app in Hc.
      now apply andb_true_iff in Hc as [Hc _].
    + destruct l as [|e0 l].
      * rewrite app_nil_r in Hp. now subst pre.
      * simpl in Hq. injection Hq as <- Hq. subst exits.
        rewrite forallb_app in Hex. apply andb_true_iff in Hex as [_ Hex].
        simpl in Hex. rewrite He in Hex. discriminate.
Qed.

(** What a mode set leaves in the log: no transfer, and, if it returns, a
    mode-set command for every channel named. *)
Lemma set_mode_log self tag chans h :
  exists new,
    snd (set_mode self tag chans h) = h ++ new /\
    (forall e, In e new -> is_transfer e = false) /\
    (fst (set_mode self tag chans h) = inr tt ->
     forall c, In c chans -> In (Cmd (mode_set tag (Some c))) new).
Proof.
  assert (Hgen : forall mk : option Z -> command,
             (forall o, is_transfer_command (mk o) = false) ->
             forall run : M unit,
               run = (if Py.eq_nil chans then
                        with_interface self (command_ self (mk None))
                      else
                        with_interface self
                          (for_each chans (fun chan =>
                             c <- lift (UInt32 chan) ;;
                             command_ self (mk (Some c))))) ->
               exists new,
                 snd (run h) = h ++ new /\
                 (forall e, In e new -> is_transfer e = false) /\
                 (fst (run h) = inr tt ->
                  forall c, In c chans -> In (Cmd (mk (Some c))) new)).
  { intros mk Hmk run ->. destruct chans as [|c0 chans']; cbn [Py.eq_nil].
    - rewrite with_interface_command.
      destruct (on_enter self h).
      + exists [Enter]. simpl. split; [reflexivity|]. split.
        * intros e [<-|[]]. reflexivity.
        * discriminate.
      + exists [Enter; Cmd (mk None); Exit]. simpl. split; [reflexivity|].
        split.
        * intros e [<-|[<-|[<-|[]]]]; simpl; auto.
        * intros _ c [].
    - unfold with_interface. destruct (on_enter self h).
      + exists [Enter]. simpl. split; [reflexivity|]. split.
        * intros e [<-|[]]. reflexivity.
        * discriminate.
      + destruct (for_each_commands_log self UInt32 (fun c => mk (Some c))
                    (fun a c H => proj1 (UInt32_returns a c H))
                    (c0 :: chans') (h ++ [Enter])) as (k & Hlog & Hret).
        destruct (for_each (c0 :: chans') _ (h ++ [Enter])) as [r h1].
        simpl fst in *. simpl snd in *. subst h1.
        exists (Enter :: map (fun c => Cmd (mk (Some c)))
                             (firstn k (c0 :: chans')) ++ [Exit]).
        split; [now rewrite <- !app_assoc|]. split.
        * intros e [<-|He]; [reflexivity|].
          apply in_app_or in He as [He|[<-|[]]]; [|reflexivity].
          apply in_map_iff in He as (c & <- & _). simpl. apply Hmk.
        * intros Hr c Hc. rewrite (Hret Hr). right. apply in_or_app. left.
          apply in_map_iff. exists c. now split. }
  destruct tag.
  - apply (Hgen SetCurrentMode); reflexivity.
  - apply (Hgen SetVoltageMode); reflexivity.
Qed.

(** What the transfer session leaves in the log: transfers of named
    channels, with the sequences and the tag it was given, inside one
    session. *)
Lemma transfer_loop_log self tag chans amps durs h :
  exists evs,
    snd (with_interface self
           (for_each chans (fun chan =>
              command_ self (PrepareAndSendData chan amps durs tag))) h)
    = h ++ Enter :: evs /\
    (forall e, In e evs ->
       e = Exit \/
       exists c, In c chans /\ e = Cmd (PrepareAndSendData c amps durs tag)).
Proof.
  unfold with_interface. destruct (on_enter self h).
  - exists []. simpl. split; [reflexivity|]. intros e [].
  - rewrite (for_each_ext chans _
               (fun chan => c <- lift (inr chan) ;;
                            command_ self (PrepareAndSendData c amps durs tag)))
      by reflexivity.
    destruct (for_each_commands_log self (@inr exn Z)
                (fun c => PrepareAndSendData c amps durs tag)
                (fun a c H => eq_sym (f_equal (fun s => match s with
                                                        | inr z => z
                                                        | inl _ => a
                                                        end) H))
                chans (h ++ [Enter])) as (k & Hlog & _).
    destruct (for_each chans _ (h ++ [Enter])) as [r h1].
    simpl snd in *. subst h1.
    exists (map (fun c => Cmd (PrepareAndSendData c amps durs tag))
                (firstn k chans) ++ [Exit]).
    split; [now rewrite <- !app_assoc|].
    intros e He. apply in_app_or in He as [He|[<-|[]]]; [|now left].
    right. apply in_map_iff in He as (c & <- & Hc).
    exists c. split; [|reflexivity]. eapply In_firstn, Hc.
Qed.

Lemma set_mode_then_transfer_order self tag chans amps durs h
      pre c a d m post :
  snd (set_mode_then_transfer self tag chans amps durs h)
  = h ++ pre ++ Cmd (PrepareAndSendData c a d m) :: post ->
  In (Cmd (mode_set m (Some c))) pre /\ m = tag /\ a = amps /\ d = durs.
Proof.
  unfold set_mode_then_transfer, bind.
  destruct (set_mode_log self tag chans h) as (new1 & Hlog1 & Hnot & Hall).
  destruct (set_mode self tag chans h) as [[x|[]] h1];
    simpl fst in *; simpl snd in *; subst h1.
  - intros Heq. apply app_inv_head in Heq.
    assert (Hin : In (Cmd (PrepareAndSendData c a d m)) new1)
      by (rewrite Heq; apply in_or_app; right; now left).
    apply Hnot in Hin. discriminate.
  - destruct (transfer_loop_log self tag chans amps durs (h ++ new1))
      as (evs & Hlog2 & Hevs).
    rewrite Hlog2, <- app_assoc. intros Heq. apply app_inv_head in Heq.
    change (new1 ++ Enter :: evs) with (new1 ++ [Enter] ++ evs) in Heq.
    rewrite app_assoc in Heq.
    apply app_split_not_in in Heq as (pre' & -> & Hevs').
    + assert (Hin : In (Cmd (PrepareAndSendData c a d m)) evs)
        by (rewrite Hevs'; apply in_or_app; right; now left).
      apply Hevs in Hin as [Hin | (c' & Hc' & Hin)]; [discriminate|].
      injection Hin as -> -> -> ->.
      repeat split. apply in_or_app. left. apply in_or_app. left.
      now apply Hall.
    + intros Hin. apply in_app_or in Hin as [Hin|[Hin|[]]];
        [|discriminate].
      apply Hnot in Hin. discriminate.
Qed.

Lemma no_event_in_untouched_log (h pre post : list event) (e : event) :
  h = h ++ pre ++ e :: post -> False.
Proof.
  intros Heq. rewrite <- (app_nil_r h) in Heq at 1.
  apply app_inv_head in Heq. destruct pre; discriminate.
Qed.

(** C4. Take any run of [_download], on any device and with any arguments,
    and any transfer command it asked of the device.  The mode of the call
    is then "current" or "voltage", the transfer carries that mode's tag, and
    earlier in the same run the device was asked to set that very channel to
    that mode; everything asked before the transfer, the mode set included,
    had succeeded.  No transfer goes out without its mode set before it. *)
Theorem mode_set_precedes_transfer :
  forall (self : device) chans amps durs (mode : string) (h : list event)
         pre c a d m post,
    snd (_download self chans amps durs mode h)
    = h ++ pre ++ Cmd (PrepareAndSendData c a d m) :: post ->
    tag_of mode = Some m /\
    In (Cmd (mode_set m (Some c))) pre /\
    all_succeed self h pre = true.
Proof.
  intros self chans amps durs mode h pre c a d m post Hlog.
  assert (Hsucc : all_succeed self h pre = true).
  { destruct (_download_disciplined_any self chans amps durs mode h)
      as (new & Hnew & Hs).
    rewrite Hnew in Hlog. apply app_inv_head in Hlog.
    eapply shape_prefix_succeeds; [exact Hs | exact Hlog | reflexivity]. }
  destruct (Nat.eq_dec (List.length amps) (List.length durs)) as [Hlen|Hlen].
  - rewrite (_download_cases _ _ _ _ _ _ Hlen) in Hlog.
    destruct (forallb in_Int32 amps && forallb in_UInt64 durs);
      [|now apply no_event_in_untouched_log in Hlog].
    destruct (tag_of mode) as [tag|];
      [|now apply no_event_in_untouched_log in Hlog].
    apply set_mode_then_transfer_order in Hlog as (Hin & -> & _ & _).
    auto.
  - rewrite (download_length_mismatch_log self h chans amps durs mode Hlen)
      in Hlog.
    now apply no_event_in_untouched_log in Hlog.
Qed.

Lemma mode_set_precedes_transfer_witness :
  tag_of "current" = Some CURRENT /\
  In (Cmd (mode_set CURRENT (Some 3)))
     [Enter; Cmd (SetCurrentMode (Some 3)); Exit; Enter] /\
  all_succeed (quiet 8) []
              [Enter; Cmd (SetCurrentMode (Some 3)); Exit; Enter] = true.
Proof.
  apply (mode_set_precedes_transfer
           (quiet 8) [3] [1000000] [100] "current" []
           [Enter; Cmd (SetCurrentMode (Some 3)); Exit; Enter]
           3 [1000000] [100] CURRENT [Exit]).
  reflexivity.
Defined.

(** ** [range] and [bitmap] *)

Lemma range_length (n : nat) : List.length (Py.range (Z.of_nat n)) = n.
Proof. unfold Py.range. now rewrite length_map, length_seq, Nat2Z.id. Qed.

Lemma range_nth (n i : nat) :
  (i < n)%nat -> nth i (Py.range (Z.of_nat n)) 0 = Z.of_nat i.
Proof.
  intros Hi. unfold Py.range. rewrite Nat2Z.id.
  change 0 with (Z.of_nat 0). rewrite map_nth, seq_nth by exact Hi.
  reflexivity.
Qed.

Lemma range_map_nth (f : Z -> Z) (d : Z) (n i : nat) :
  (i < n)%nat -> nth i (map f (Py.range (Z.of_nat n))) d = f (Z.of_nat i).
Proof.
  intros Hi.
  rewrite (nth_indep _ d (f 0)) by now rewrite length_map, range_length.
  now rewrite map_nth, range_nth.
Qed.

Lemma range_In (n : nat) (i : Z) :
  In i (Py.range (Z.of_nat n)) <-> 0 <= i < Z.of_nat n.
Proof.
  unfold Py.range. rewrite Nat2Z.id, in_map_iff. split.
  - intros (k & <- & Hk). apply in_seq in Hk. lia.
  - intros Hi. exists (Z.to_nat i). split; [lia|]. apply in_seq. lia.
Qed.

Lemma shiftl_1_testbit (x i : Z) :
  0 <= i -> Z.testbit (Z.shiftl 1 x) i = (i =? x).
Proof.
  intros Hi. rewrite Z.shiftl_spec by exact Hi.
  destruct (Z.eqb_spec i x) as [->|Hne].
  - now rewrite Z.sub_diag.
  - destruct (Z.lt_ge_cases (i - x) 0) as [Hneg|Hpos].
    + now rewrite Z.testbit_neg_r.
    + assert (Hs : i - x = Z.succ (i - x - 1)) by lia.
      rewrite Hs. change 1 with (2 * 0 + 1).
      rewrite Z.testbit_odd_succ by lia. apply Z.testbit_0_l.
Qed.

(** The model of [bitmap] does what the spec says of it: bit [i] is set
    exactly when [i] is among the indices. *)
Lemma bitmap_testbit (l : list Z) (i : Z) :
  0 <= i -> Z.testbit (bitmap l) i = existsb (Z.eqb i) l.
Proof.
  intros Hi. induction l as [|x l IH]; simpl.
  - apply Z.testbit_0_l.
  - now rewrite Z.lor_spec, shiftl_1_testbit, IH.
Qed.

Lemma bitmap_range (n : nat) :
  bitmap (Py.range (Z.of_nat n)) = 2 ^ Z.of_nat n - 1.
Proof.
  rewrite Z.sub_1_r, <- Z.ones_equiv.
  apply Z.bits_inj'. intros i Hi.
  rewrite bitmap_testbit, Z.testbit_ones_nonneg by lia.
  destruct (Z.ltb_spec i (Z.of_nat n)) as [Hlt|Hge].
  - apply existsb_exists. exists i. split; [|apply Z.eqb_refl].
    apply range_In. lia.
  - destruct (existsb (Z.eqb i) (Py.range (Z.of_nat n))) eqn:E;
      [|reflexivity].
    apply existsb_exists in E as (j & Hj & Hij).
    apply Z.eqb_eq in Hij. subst j. apply range_In in Hj. lia.
Qed.

Lemma map_id_range (n : Z) : map (fun c => c) (Py.range n) = Py.range n.
Proof. apply map_id. Qed.

(** ** The diagonal trigger map *)

Lemma triggermap_loop_maps (indices : list Z) :
  triggermap_loop indices =
  (map (Z.shiftl 1) indices, map (Z.shiftl 1) indices,
   map (fun _ => 1) indices).
Proof.
  unfold triggermap_loop.
  assert (Hgen : forall l cm sm rp,
             fold_left
               (fun '(channelmap, syncoutmap, repeat) chan_idx =>
                  let repeat := repeat ++ [1] in
                  let syncoutmap := syncoutmap ++ [Z.shiftl 1 chan_idx] in
                  let channelmap := channelmap ++ [Z.shiftl 1 chan_idx] in
                  (channelmap, syncoutmap, repeat))
               l (cm, sm, rp) =
             (cm ++ map (Z.shiftl 1) l, sm ++ map (Z.shiftl 1) l,
              rp ++ map (fun _ => 1) l)).
  { induction l as [|x l IH]; intros cm sm rp; simpl.
    - now rewrite !app_nil_r.
    - rewrite IH, <- !app_assoc. reflexivity. }
  apply Hgen.
Qed.

(** C5. On a device whose sessions open and which reports [n] channels,
    [diagonalize_triggermap] asks for the channel count and then for one
    trigger setup, at base index 0, with three lists of exactly [n] entries:
    entry [i] of the channel mask and of the sync-out mask is [2^i], entry
    [i] of the repeat counts is 1.  For four channels the lists are
    [1,2,4,8], [1,2,4,8] and [1,1,1,1]. *)
Theorem diagonalize_triggermap_writes_diagonal :
  (forall (self : device) (h : list event) (n : nat),
      on_enter self h = None ->
      on_query self (h ++ [Enter]) GetNumberOfAnalogChannels
      = inr (Z.of_nat n) ->
      on_enter self (h ++ [Enter; Ask GetNumberOfAnalogChannels; Exit])
      = None ->
      exists channelMask syncOutMask repeatCount,
        snd (diagonalize_triggermap self h) =
        h ++ [Enter; Ask GetNumberOfAnalogChannels; Exit;
              Enter; Cmd (SetupTrigger 0 channelMask syncOutMask repeatCount);
              Exit] /\
        List.length channelMask = n /\
        List.length syncOutMask = n /\
        List.length repeatCount = n /\
        (forall i, (i < n)%nat ->
                   nth i channelMask 0 = 2 ^ Z.of_nat i /\
                   nth i syncOutMask 0 = 2 ^ Z.of_nat i /\
                   nth i repeatCount 0 = 1)) /\
  snd (diagonalize_triggermap (quiet 4) []) =
  [Enter; Ask GetNumberOfAnalogChannels; Exit;
   Enter; Cmd (SetupTrigger 0 [1; 2; 4; 8] [1; 2; 4; 8] [1; 1; 1; 1]); Exit].
Proof.
  split; [|reflexivity].
  intros self h n Hen Hq Hen2.
  exists (map (Z.shiftl 1) (Py.range (Z.of_nat n))),
         (map (Z.shiftl 1) (Py.range (Z.of_nat n))),
         (map (fun _ => 1) (Py.range (Z.of_nat n))).
  split.
  - unfold diagonalize_triggermap, bind.
    rewrite (channel_count_answered _ _ _ Hen Hq), triggermap_loop_maps.
    rewrite with_interface_command, Hen2. simpl snd.
    now rewrite <- app_assoc.
  - rewrite !length_map, range_length.
    split; [reflexivity|]. split; [reflexivity|]. split; [reflexivity|].
    intros i Hi. rewrite !range_map_nth by exact Hi.
    rewrite Z.shiftl_mul_pow2 by lia. repeat split; lia.
Qed.

Lemma diagonalize_triggermap_writes_diagonal_witness :
  exists channelMask syncOutMask repeatCount,
    snd (diagonalize_triggermap (quiet 8) []) =
    [] ++ [Enter; Ask GetNumberOfAnalogChannels; Exit;
           Enter; Cmd (SetupTrigger 0 channelMask syncOutMask repeatCount);
           Exit] /\
    List.length channelMask = 8%nat /\
    List.length syncOutMask = 8%nat /\
    List.length repeatCount = 8%nat /\
    (forall i, (i < 8)%nat ->
               nth i channelMask 0 = 2 ^ Z.of_nat i /\
               nth i syncOutMask 0 = 2 ^ Z.of_nat i /\
               nth i repeatCount 0 = 1).
Proof.
  apply (proj1 diagonalize_triggermap_writes_diagonal (quiet 8) [] 8%nat);
    reflexivity.
Defined.

(** ** Stopping and starting with the default selection *)

Lemma ones_in_UInt32 (n : nat) :
  (n <= 32)%nat -> in_UInt32 (2 ^ Z.of_nat n - 1) = true.
Proof.
  intros Hn. unfold in_UInt32. apply andb_true_iff. split.
  - apply Z.leb_le. assert (0 < 2 ^ Z.of_nat n) by (apply Z.pow_pos_nonneg; lia).
    lia.
  - apply Z.ltb_lt.
    assert (2 ^ Z.of_nat n <= 2 ^ 32) by (apply Z.pow_le_mono_r; lia). lia.
Qed.

(** C6, as stated, fails on a device that reports 33 channels: the channel
    count is asked and the identity sequence built, but its bitmask 2^33-1
    is beyond [UInt32]; the call leaves with [OverflowError] and no stop
    command is asked of the device. *)
Lemma stop_default_counterexample :
  stop_stimulation (quiet 33) [] [] =
  (inl OverflowError,
   [Enter; Ask GetNumberOfAnalogChannels; Exit; Enter; Exit]) /\
  bitmap (Py.range 33) = 2 ^ 33 - 1 /\
  ~ (exists mask,
        In (Cmd (SendStop mask)) (snd (stop_stimulation (quiet 33) [] []))).
Proof.
  split; [reflexivity|]. split; [reflexivity|].
  intros (mask & Hin). simpl in Hin.
  repeat (destruct Hin as [Hin|Hin]; [discriminate|]). exact Hin.
Qed.

(** C6, amended.  When [stop_stimulation] is called with the empty
    selection on a device whose sessions open and which, asked during this
    very call, reports [n <= 32] channels, the log grows by exactly: a
    session with the channel-count query, then a session with a single stop
    command carrying [2^n - 1], the bitmask of the identity sequence
    [0..n-1] (bit [i] set exactly for [i < n]); the call's outcome is that
    command's outcome. *)
Theorem stop_default_stops_all_channels :
  forall (self : device) (h : list event) (n : nat),
    (n <= 32)%nat ->
    on_enter self h = None ->
    on_query self (h ++ [Enter]) GetNumberOfAnalogChannels
    = inr (Z.of_nat n) ->
    on_enter self (h ++ [Enter; Ask GetNumberOfAnalogChannels; Exit]) = None ->
    stop_stimulation self [] h =
    (outcome_of
       (on_command self
          (h ++ [Enter; Ask GetNumberOfAnalogChannels; Exit; Enter])
          (SendStop (2 ^ Z.of_nat n - 1))),
     h ++ [Enter; Ask GetNumberOfAnalogChannels; Exit;
           Enter; Cmd (SendStop (2 ^ Z.of_nat n - 1)); Exit]) /\
    bitmap (Py.range (Z.of_nat n)) = 2 ^ Z.of_nat n - 1 /\
    (forall i, 0 <= i ->
               Z.testbit (2 ^ Z.of_nat n - 1) i = (i <? Z.of_nat n)).
Proof.
  intros self h n Hn Hen Hq Hen2. split; [|split].
  - unfold stop_stimulation. cbn [Py.eq_nil]. unfold bind at 1. cbv beta.
    unfold bind at 1. cbv beta.
    rewrite (channel_count_answered _ _ _ Hen Hq). unfold ret at 1.
    rewrite map_id_range, bitmap_range.
    unfold with_interface. rewrite Hen2. unfold bind, lift.
    rewrite (UInt32_inr _ (ones_in_UInt32 _ Hn)). unfold command_, outcome_of.
    rewrite <- !app_assoc. simpl app.
    destruct (on_command self _ _); now rewrite <- !app_assoc.
  - apply bitmap_range.
  - intros i Hi. rewrite Z.sub_1_r, <- Z.ones_equiv.
    apply Z.testbit_ones_nonneg; lia.
Qed.

Lemma stop_default_stops_all_channels_witness :
  stop_stimulation (quiet 8) [] [] =
  (outcome_of
     (on_command (quiet 8)
        ([] ++ [Enter; Ask GetNumberOfAnalogChannels; Exit; Enter])
        (SendStop (2 ^ Z.of_nat 8 - 1))),
   [] ++ [Enter; Ask GetNumberOfAnalogChannels; Exit;
          Enter; Cmd (SendStop (2 ^ Z.of_nat 8 - 1)); Exit]) /\
  bitmap (Py.range (Z.of_nat 8)) = 2 ^ Z.of_nat 8 - 1 /\
  (forall i, 0 <= i ->
             Z.testbit (2 ^ Z.of_nat 8 - 1) i = (i <? Z.of_nat 8)).
Proof.
  apply (stop_default_stops_all_channels (quiet 8) [] 8%nat);
    first [reflexivity | lia].
Defined.

(** C1 does not hold of the code.  [start_stimulation] compares its
    argument with [is []], which no list satisfies, so the empty selection
    is never resolved: whatever the device, the channel count is not asked
    and the start command carries the bitmask of the empty list, 0.  On a
    device reporting 8 channels the start command carries 0, not 255, while
    [stop_stimulation], which compares with [==], sends 255. *)
Theorem start_default_sends_empty_mask :
  (forall (self : device) (h : list event),
      start_stimulation self [] h =
      with_interface self (command_ self (SendStart 0)) h) /\
  start_stimulation (quiet 8) [] [] =
  (inr tt, [Enter; Cmd (SendStart 0); Exit]) /\
  stop_stimulation (quiet 8) [] [] =
  (inr tt, [Enter; Ask GetNumberOfAnalogChannels; Exit;
            Enter; Cmd (SendStop 255); Exit]).
Proof.
  split; [|split; reflexivity].
  intros self h. reflexivity.
Qed.

(** ** The unit conversion of [download] *)

Lemma quot_nonneg_bounds (n d : Z) :
  0 <= n -> 0 < d -> (n ÷ d) * d <= n < (n ÷ d + 1) * d.
Proof.
  intros Hn Hd. rewrite Z.quot_div_nonneg by assumption.
  pose proof (Z.mul_div_le n d Hd).
  pose proof (Z.mul_succ_div_gt n d Hd). lia.
Qed.

Lemma quot_nonpos_bounds (n d : Z) :
  n <= 0 -> 0 < d -> (n ÷ d - 1) * d < n <= (n ÷ d) * d.
Proof.
  intros Hn Hd.
  assert (Hq : n ÷ d = - ((- n) ÷ d))
    by (rewrite Z.quot_opp_l by lia; lia).
  pose proof (quot_nonneg_bounds (- n) d ltac:(lia) Hd). rewrite Hq. lia.
Qed.

Lemma trunc_truncates (x : Q) : truncation_toward_zero x (Py.trunc x).
Proof.
  destruct x as [n d]. unfold truncation_toward_zero, Py.trunc.
  unfold Qle, Qlt, Qplus, Qminus, Qopp, inject_Z. simpl.
  rewrite !Z.mul_1_r. split; intros Hn.
  - pose proof (quot_nonneg_bounds n (Z.pos d) Hn ltac:(lia)). lia.
  - pose proof (quot_nonpos_bounds n (Z.pos d) Hn ltac:(lia)). lia.
Qed.

(** [int()] of a number that has a value is the truncation of that value. *)
Lemma int_of_valued (p : Py.number) (v : Q) :
  Py.number_value p = Some v -> Py.int p = inr (Py.trunc v).
Proof.
  destruct p as [z|[s|s| |s m e]]; simpl; intros [= <-]; try reflexivity.
  unfold Py.trunc. simpl. now rewrite Z.quot_1_r.
Qed.

Lemma int_of_unvalued (p : Py.number) :
  Py.number_value p = None ->
  Py.int p = inl OverflowError \/
  Py.int p = inl (ValueError "cannot convert float NaN to integer").
Proof.
  destruct p as [z|[s|s| |s m e]]; simpl; try discriminate; auto.
Qed.

Lemma comprehension_lift {A B} (f : A -> exn + B) (l : list A) h :
  comprehension (fun a => lift (f a)) l h = (convert_all f l, h).
Proof.
  induction l as [|a l IH]; simpl; [reflexivity|].
  unfold bind at 1, lift at 1. destruct (f a); [reflexivity|].
  unfold bind at 1. rewrite IH.
  now destruct (convert_all f l).
Qed.

Lemma convert_all_inr {A B} (f : A -> exn + B) (l : list A) (bs : list B) :
  convert_all f l = inr bs -> Forall2 (fun a b => f a = inr b) l bs.
Proof.
  revert bs. induction l as [|a l IH]; simpl; intros bs.
  - intros [= <-]. constructor.
  - destruct (f a) as [x|b] eqn:Ea; [discriminate|].
    destruct (convert_all f l) as [x|bs']; [discriminate|].
    intros [= <-]. constructor; [exact Ea | now apply IH].
Qed.

Lemma convert_all_fails {A B} (f : A -> exn + B) (l : list A) (a : A) x :
  In a l -> f a = inl x -> exists y, convert_all f l = inl y.
Proof.
  induction l as [|a0 l IH]; simpl; [tauto|].
  intros [->|Hin] Hx.
  - rewrite Hx. eauto.
  - destruct (f a0); [eauto|].
    destruct (IH Hin Hx) as (y & ->). eauto.
Qed.

(** [download] by its steps: the amplitudes are converted, then the
    durations, and only then does [_download] run. *)
Lemma download_steps self chan amps durs h :
  download self chan amps durs h =
  match convert_all (fun a => Py.int (Py.mul_int a 1000000)) amps with
  | inl x => (inl x, h)
  | inr amplitudes =>
      match convert_all (fun s => Py.int (Py.mul_int s 1000)) durs with
      | inl x => (inl x, h)
      | inr durations =>
          _download self [chan] amplitudes durations "current" h
      end
  end.
Proof.
  unfold download. unfold bind at 1. cbv beta. rewrite comprehension_lift.
  destruct (convert_all _ amps); [reflexivity|].
  unfold bind at 1. cbv beta. rewrite comprehension_lift.
  now destruct (convert_all _ durs).
Qed.

(** A transfer asked by [_download] carries the two sequences as they were
    given. *)
Lemma _download_transfer_data self chans amps durs mode h pre c a d m post :
  snd (_download self chans amps durs mode h)
  = h ++ pre ++ Cmd (PrepareAndSendData c a d m) :: post ->
  a = amps /\ d = durs.
Proof.
  intros Hlog.
  destruct (Nat.eq_dec (List.length amps) (List.length durs)) as [Hlen|Hlen].
  - rewrite (_download_cases _ _ _ _ _ _ Hlen) in Hlog.
    destruct (forallb in_Int32 amps && forallb in_UInt64 durs);
      [|now apply no_event_in_untouched_log in Hlog].
    destruct (tag_of mode) as [tag|];
      [|now apply no_event_in_untouched_log in Hlog].
    apply set_mode_then_transfer_order in Hlog as (_ & _ & Ha & Hd).
    now split.
  - rewrite (download_length_mismatch_log self h chans amps durs mode Hlen)
      in Hlog.
    now apply no_event_in_untouched_log in Hlog.
Qed.

(** C3, as stated, fails.  The double 3/256 (mA) times a million is the
    double 11718.75, whose nearest integer is 11719; [download] sends 11718.
    The double 3/32 (ms) times a thousand is 93.75; [download] sends 93, not
    94.  The double nearest 1.001 mA is sent as 1000999 although the nearest
    integer is 1001000.  And the conversion can fail: for the amplitude 1e305
    the product is infinite and [download] leaves with [OverflowError]. *)
Lemma unit_conversion_counterexample :
  (Py.value (Py.ratio 3 256) == 3 # 256)%Q /\
  (Py.value (Py.ratio 3 32) == 3 # 32)%Q /\
  Py.spec_round ((3 # 256) * 1000000) = 11719 /\
  Py.spec_round ((3 # 32) * 1000) = 94 /\
  Py.int (Py.mul_int (Py.Float (Py.ratio 3 256)) 1000000) = inr 11718 /\
  Py.int (Py.mul_int (Py.Float (Py.ratio 3 32)) 1000) = inr 93 /\
  download (quiet 8) 0 [Py.Float (Py.ratio 3 256)]
           [Py.Float (Py.ratio 3 32)] [] =
  (inr tt,
   [Enter; Cmd (SetCurrentMode (Some 0)); Exit;
    Enter; Cmd (PrepareAndSendData 0 [11718] [93] CURRENT); Exit]) /\
  Py.spec_round (Py.value (Py.ratio 1001 1000) * 1000000) = 1001000 /\
  Py.int (Py.mul_int (Py.Float (Py.ratio 1001 1000)) 1000000) = inr 1000999 /\
  download (quiet 8) 0 [Py.Float (Py.float_of_Z (10 ^ 305))]
           [Py.Float (Py.float_of_Z 1)] [] =
  (inl OverflowError, []).
Proof.
  split; [vm_compute; reflexivity|]. split; [vm_compute; reflexivity|].
  split; [vm_compute; reflexivity|]. split; [vm_compute; reflexivity|].
  split; [vm_compute; reflexivity|]. split; [vm_compute; reflexivity|].
  split; [vm_compute; reflexivity|]. split; [vm_compute; reflexivity|].
  split; [vm_compute; reflexivity|]. vm_compute. reflexivity.
Qed.

(** C3, amended.  [download] multiplies each amplitude by 1_000_000 and each
    duration by 1000 as Python does (the product of a float is rounded to a
    double) and cuts the product to an integer with [int()].  A product that
    has a value is converted, and its fractional part is dropped: the device
    value is the integer next to the product on the side of zero, not the
    nearest one.  A product that is infinite or NaN makes [int()] raise.  The
    sequences a transfer carries are the converted inputs, element by
    element; and a product without a value anywhere in the inputs makes
    [download] raise with the log untouched. *)
Theorem unit_conversion_truncates :
  (forall (p : Py.number) (v : Q),
      Py.number_value p = Some v ->
      exists z, Py.int p = inr z /\ truncation_toward_zero v z) /\
  (forall p : Py.number,
      Py.number_value p = None ->
      Py.int p = inl OverflowError \/
      Py.int p = inl (ValueError "cannot convert float NaN to integer")) /\
  (forall (self : device) channel_index amplitudes_in_mA durations_in_ms h
          pre c amplitudes durations m post,
      snd (download self channel_index amplitudes_in_mA durations_in_ms h)
      = h ++ pre ++ Cmd (PrepareAndSendData c amplitudes durations m) :: post
      ->
      Forall2 (fun a z => Py.int (Py.mul_int a 1000000) = inr z)
              amplitudes_in_mA amplitudes /\
      Forall2 (fun s z => Py.int (Py.mul_int s 1000) = inr z)
              durations_in_ms durations) /\
  (forall (self : device) channel_index amplitudes_in_mA durations_in_ms h,
      (exists a, In a amplitudes_in_mA /\
                 Py.number_value (Py.mul_int a 1000000) = None) \/
      (exists s, In s durations_in_ms /\
                 Py.number_value (Py.mul_int s 1000) = None) ->
      exists x,
        download self channel_index amplitudes_in_mA durations_in_ms h
        = (inl x, h)).
Proof.
  split; [|split; [|split]].
  - intros p v Hv. exists (Py.trunc v). split.
    + now apply int_of_valued.
    + apply trunc_truncates.
  - exact int_of_unvalued.
  - intros self ch amps durs h pre c A D m post Hlog.
    rewrite download_steps in Hlog.
    destruct (convert_all _ amps) as [x|A'] eqn:Ea;
      [now apply no_event_in_untouched_log in Hlog|].
    destruct (convert_all _ durs) as [x|D'] eqn:Ed;
      [now apply no_event_in_untouched_log in Hlog|].
    apply _download_transfer_data in Hlog as [-> ->].
    split; now apply convert_all_inr.
  - intros self ch amps durs h Hbad. rewrite download_steps.
    destruct Hbad as [(a & Hin & Hv) | (d & Hin & Hv)].
    + assert (Hx : exists x, Py.int (Py.mul_int a 1000000) = inl x)
        by (destruct (int_of_unvalued _ Hv) as [-> | ->]; eauto).
      destruct Hx as (x & Hx).
      destruct (convert_all_fails (fun a => Py.int (Py.mul_int a 1000000))
                  amps a x Hin Hx) as (y & ->).
      eauto.
    + destruct (convert_all _ amps); [eauto|].
      assert (Hx : exists x, Py.int (Py.mul_int d 1000) = inl x)
        by (destruct (int_of_unvalued _ Hv) as [-> | ->]; eauto).
      destruct Hx as (x & Hx).
      destruct (convert_all_fails (fun s => Py.int (Py.mul_int s 1000))
                  durs d x Hin Hx) as (y & ->).
      eauto.
Qed.

(** The double 3/256 mA: its product with a million is the double
    11718.75 = 6442450944000000 / 2^39, and the conversion gives the integer
    next to it on the side of zero. *)
Lemma unit_conversion_truncates_witness :
  exists z,
    Py.int (Py.mul_int (Py.Float (Py.ratio 3 256)) 1000000) = inr z /\
    truncation_toward_zero (6442450944000000 # 549755813888) z.
Proof.
  apply (proj1 unit_conversion_truncates
               (Py.mul_int (Py.Float (Py.ratio 3 256)) 1000000)
               (6442450944000000 # 549755813888)).
  vm_compute. reflexivity.
Defined.

(** * Further properties of the wrapper *)

(** ** Sessions are entered and left in pairs *)

Lemma session_state_app self (a c : list event) :
  forall h b1 b2,
    all_succeed self h a = true ->
    session_state self h b1 a = Some b2 ->
    session_state self h b1 (a ++ c) = session_state self (h ++ a) b2 c.
Proof.
  induction a as [|e a IH]; intros h b1 b2 Hs Hst.
  - simpl in *. injection Hst as <-. now rewrite app_nil_r.
  - simpl in Hs. destruct (failure self h e) eqn:Ef; [discriminate|].
    replace (h ++ e :: a) with ((h ++ [e]) ++ a) by now rewrite <- app_assoc.
    destruct e; simpl in Hst |- *; destruct b1; try discriminate;
      try (now apply IH).
    simpl in Ef. rewrite Ef in Hst |- *. now apply IH.
Qed.

Lemma session_state_flat self (new : list event) :
  forall h,
    forallb is_call new = true ->
    session_state self h true (new ++ [Exit]) = Some false.
Proof.
  induction new as [|e new IH]; intros h Hc; [reflexivity|].
  simpl in Hc. apply andb_true_iff in Hc as [He Hc].
  destruct e; simpl in He; try discriminate; simpl; now apply IH.
Qed.

Section Sessions.

Variable self : device.

Lemma flat_ret {A} (a : A) : flat self (ret a).
Proof.
  intros h. exists []. simpl. rewrite app_nil_r. auto.
Qed.

Lemma flat_lift {A} (r : exn + A) : flat self (lift r).
Proof.
  intros h. exists []. simpl. rewrite app_nil_r. auto.
Qed.

Lemma flat_bind {A B} (m : M A) (k : A -> M B) :
  flat self m -> (forall a, flat self (k a)) -> flat self (bind m k).
Proof.
  intros Hm Hk h. unfold bind.
  destruct (Hm h) as (new1 & Hlog1 & Hc1 & Hs1).
  destruct (m h) as [[x|a] h1]; simpl in *; subst h1.
  - exists new1. repeat split; [exact Hc1 | discriminate].
  - destruct (Hk a (h ++ new1)) as (new2 & Hlog2 & Hc2 & Hs2).
    exists (new1 ++ new2). rewrite Hlog2, app_assoc.
    split; [reflexivity|]. split.
    + now rewrite forallb_app, Hc1, Hc2.
    + intros b Hb. rewrite all_succeed_app, (Hs1 a eq_refl), (Hs2 b Hb).
      reflexivity.
Qed.

Lemma flat_command (c : command) : flat self (command_ self c).
Proof.
  intros h. exists [Cmd c]. unfold command_.
  destruct (on_command self h c) eqn:E; simpl;
    (split; [reflexivity|]; split; [reflexivity|]).
  - discriminate.
  - intros _ _. now rewrite E.
Qed.

Lemma flat_ask (q : query) : flat self (ask self q).
Proof.
  intros h. exists [Ask q]. unfold ask.
  destruct (on_query self h q) eqn:E; simpl;
    (split; [reflexivity|]; split; [reflexivity|]).
  - discriminate.
  - intros _ _. now rewrite E.
Qed.

Lemma flat_ask_version (a b : string) : flat self (ask_version self a b).
Proof.
  intros h. exists [GetStgVersionInfo a b]. unfold ask_version.
  destruct (on_version self h a b) eqn:E; simpl;
    (split; [reflexivity|]; split; [reflexivity|]).
  - discriminate.
  - intros _ _. now rewrite E.
Qed.

Lemma flat_for_each {A} (l : list A) (body : A -> M unit) :
  (forall a, flat self (body a)) -> flat self (for_each l body).
Proof.
  intros Hb. induction l as [|a l IH]; simpl.
  - apply flat_ret.
  - apply flat_bind; [apply Hb | intros _; exact IH].
Qed.

Lemma sessioned_ret {A} (a : A) : sessioned self (ret a).
Proof.
  intros h. exists []. simpl. rewrite app_nil_r. auto.
Qed.

Lemma sessioned_raise {A} (x : exn) : sessioned self (@raise A x).
Proof.
  intros h. exists []. simpl. rewrite app_nil_r.
  split; [reflexivity|]. split; [reflexivity|]. discriminate.
Qed.

Lemma sessioned_lift {A} (r : exn + A) : sessioned self (lift r).
Proof.
  intros h. exists []. simpl. rewrite app_nil_r. auto.
Qed.

Lemma sessioned_bind {A B} (m : M A) (k : A -> M B) :
  sessioned self m -> (forall a, sessioned self (k a)) ->
  sessioned self (bind m k).
Proof.
  intros Hm Hk h. unfold bind.
  destruct (Hm h) as (new1 & Hlog1 & Hst1 & Hs1).
  destruct (m h) as [[x|a] h1]; simpl in *; subst h1.
  - exists new1. repeat split; [exact Hst1 | discriminate].
  - destruct (Hk a (h ++ new1)) as (new2 & Hlog2 & Hst2 & Hs2).
    exists (new1 ++ new2). rewrite Hlog2, app_assoc.
    split; [reflexivity|]. split.
    + rewrite (session_state_app self new1 new2 h false false
                 (Hs1 a eq_refl) Hst1).
      exact Hst2.
    + intros b Hb. rewrite all_succeed_app, (Hs1 a eq_refl), (Hs2 b Hb).
      reflexivity.
Qed.

Lemma sessioned_comprehension {A B} (f : A -> M B) (l : list A) :
  (forall a, sessioned self (f a)) -> sessioned self (comprehension f l).
Proof.
  intros Hf. induction l as [|a l IH]; simpl.
  - apply sessioned_ret.
  - apply sessioned_bind; [apply Hf|]. intros b.
    apply sessioned_bind; [exact IH|]. intros bs. apply sessioned_ret.
Qed.

Lemma sessioned_with_interface {A} (body : M A) :
  flat self body -> sessioned self (with_interface self body).
Proof.
  intros Hb h. unfold with_interface.
  destruct (on_enter self h) as [x|] eqn:E.
  - exists [Enter]. simpl. rewrite E.
    split; [reflexivity|]. split; [reflexivity|]. discriminate.
  - destruct (Hb (h ++ [Enter])) as (new & Hlog & Hc & Hs).
    destruct (body (h ++ [Enter])) as [r h1]. simpl in *. subst h1.
    exists (Enter :: new ++ [Exit]). split; [now rewrite <- !app_assoc|].
    split.
    + simpl. rewrite E. now apply session_state_flat.
    + intros a Ha. simpl. rewrite E.
      rewrite all_succeed_app, (Hs a Ha). reflexivity.
Qed.

End Sessions.

(** Walks a method body, as [discipline] does, for the session structure. *)
Ltac sessions :=
  repeat first
    [ progress intros
    | apply sessioned_bind
    | apply sessioned_with_interface
    | apply sessioned_comprehension
    | apply sessioned_lift
    | apply sessioned_ret
    | apply sessioned_raise
    | apply flat_bind
    | apply flat_for_each
    | apply flat_lift
    | apply flat_ret
    | apply flat_command
    | apply flat_ask
    | apply flat_ask_version
    | match goal with
      | |- sessioned _ (if ?b then _ else _) => destruct b
      | |- sessioned _ (let '(_, _) := ?p in _) => destruct p
      | |- flat _ (if ?b then _ else _) => destruct b
      end ].

Lemma perform_sessioned self op :
  exists A (m : M A),
    (forall h, perform self op h = raised (m h)) /\ sessioned self m.
Proof.
  destruct op; simpl; eexists; eexists; (split; [intros h; reflexivity|]);
    unfold download, _download, set_current_mode, set_voltage_mode,
      start_stimulation, stop_stimulation, diagonalize_triggermap,
      channel_count, trigin_count, version, _version,
      current_resolution_in_uA, current_resolution_in_mA,
      current_range_in_mA, current_range_in_uA, voltage_resolution_in_uV,
      voltage_range_in_mV, time_resolution_in_us, DAC_resolution;
    sessions.
Qed.

(** X1. Whatever operation of the wrapper runs on whatever device, what it adds
    to the log is a sequence of whole sessions: every call on the device is
    made inside a session, no session is entered inside another, and every
    session that was entered is left again before the operation returns or
    raises, also when a call in it failed or a conversion raised.  The only
    [Enter] without its [Exit] is one the device refused, and nothing
    follows it. *)
Theorem sessions_are_whole :
  forall (self : device) (op : operation) (h : list event),
    exists new,
      snd (perform self op h) = h ++ new /\
      session_state self h false new = Some false.
Proof.
  intros self op h.
  destruct (perform_sessioned self op) as (A & m & Hp & Hm).
  rewrite Hp. destruct (Hm h) as (new & Hlog & Hst & _).
  exists new. now split.
Qed.

(** The reading of sessions tells well-formed logs from ill-formed ones. *)
Example session_state_examples :
  session_state (quiet 8) [] false
    [Enter; Cmd (SendStop 1); Exit; Enter; Exit] = Some false /\
  session_state (quiet 8) [] false [Cmd (SendStop 1)] = None /\
  session_state (quiet 8) [] false [Enter; Cmd (SendStop 1)] = Some true /\
  session_state (quiet 8) [] false [Enter; Enter; Exit; Exit] = None /\
  session_state (quiet 8) [] false [Exit] = None.
Proof. repeat split. Qed.

(** ** Where a device error comes from *)

Lemma overflow_not_from_device x : overflow_only x -> not_from_device x.
Proof. intros -> e. discriminate. Qed.

Lemma perform_disciplined_strictly self op :
  exists A (m : M A),
    (forall h, perform self op h = raised (m h)) /\
    disciplined self not_from_device m.
Proof.
  pose proof (properties_disciplined self)
    as (P0 & P1 & P2 & P3 & P4 & P5 & P6 & P7 & P8 & P9 & P10).
  assert (W : forall A (m : M A),
             disciplined self overflow_only m ->
             disciplined self not_from_device m).
  { intros A m. apply disciplined_weaken. exact overflow_not_from_device. }
  assert (D : forall chans amps durs mode,
             disciplined self not_from_device
                         (_download self chans amps durs mode)).
  { intros chans amps durs mode.
    destruct (Nat.eq_dec (List.length amps) (List.length durs)) as [Hl|Hl].
    - apply W. now apply _download_disciplined.
    - unfold _download.
      rewrite (proj2 (Nat.eqb_neq _ _) Hl). cbn [negb]. cbv iota.
      apply disciplined_raise. intros e. discriminate. }
  destruct op; simpl; eexists; eexists; (split; [intros h; reflexivity|]);
    first [ apply D
          | apply download_disciplined_with;
            [intros e; discriminate | intros msg e; discriminate]
          | apply W;
            first [ apply set_current_mode_disciplined
                  | apply set_voltage_mode_disciplined
                  | apply start_stimulation_disciplined
                  | apply stop_stimulation_disciplined
                  | apply diagonalize_triggermap_disciplined
                  | apply channel_count_disciplined
                  | assumption ] ].
Qed.

(** X2. The wrapper makes up no device error: whenever an operation leaves with
    a [DeviceError], the device did answer one event of that very run with
    exactly that error, and everything asked before that event had
    succeeded. *)
Theorem device_error_has_a_cause :
  forall (self : device) (op : operation) (h : list event) (x : dev_error),
    fst (perform self op h) = Some (DeviceError x) ->
    exists pre e post,
      snd (perform self op h) = h ++ pre ++ e :: post /\
      failure self (h ++ pre) e = Some x /\
      all_succeed self h pre = true.
Proof.
  intros self op h x.
  destruct (perform_disciplined_strictly self op) as (A & m & Hp & Hm).
  rewrite Hp. destruct (Hm h) as (new & Hlog & Hs).
  unfold raised. simpl. intros Hr.
  destruct Hs as [_ Hok | pre e y exits Hn Hc Hf _ Hy].
  - destruct (fst (m h)) as [z|]; [|discriminate].
    injection Hr as ->. exfalso. exact (Hok _ eq_refl x eq_refl).
  - rewrite Hy in Hr. injection Hr as ->.
    exists pre, e, exits. rewrite Hlog, Hn. auto.
Qed.

Lemma device_error_has_a_cause_witness :
  exists pre e post,
    snd (perform (rejecting 8 is_transfer_command "usb"%string)
                 (Download 0 [Py.Int 1] [Py.Int 1]) [])
    = [] ++ pre ++ e :: post /\
    failure (rejecting 8 is_transfer_command "usb"%string) ([] ++ pre) e
    = Some "usb"%string /\
    all_succeed (rejecting 8 is_transfer_command "usb"%string) [] pre = true.
Proof.
  apply (device_error_has_a_cause
           (rejecting 8 is_transfer_command "usb"%string)
           (Download 0 [Py.Int 1] [Py.Int 1]) [] "usb"%string).
  reflexivity.
Defined.

(** ** The two mode-set methods *)

(** X3. On a device that accepts everything, [set_current_mode] and
    [set_voltage_mode] open a single session; with the empty list they ask
    once for the no-argument form, and with a non-empty list of channels in
    the range of [UInt32] they ask once per element, in the order given and
    repeating a channel named twice. *)
Theorem mode_set_methods_run :
  forall (self : device) (chans : list Z) (h : list event),
    cooperative self ->
    forallb in_UInt32 chans = true ->
    set_current_mode self chans h =
    (inr tt, h ++ [Enter] ++ mode_set_commands CURRENT chans ++ [Exit]) /\
    set_voltage_mode self chans h =
    (inr tt, h ++ [Enter] ++ mode_set_commands VOLTAGE chans ++ [Exit]).
Proof.
  intros self chans h Hco Hch. split.
  - exact (set_mode_accepted self CURRENT chans h Hco Hch).
  - exact (set_mode_accepted self VOLTAGE chans h Hco Hch).
Qed.

Lemma mode_set_methods_run_witness :
  set_current_mode (quiet 8) [3; 1; 3] [] =
  (inr tt, [] ++ [Enter] ++ mode_set_commands CURRENT [3; 1; 3] ++ [Exit]) /\
  set_voltage_mode (quiet 8) [3; 1; 3] [] =
  (inr tt, [] ++ [Enter] ++ mode_set_commands VOLTAGE [3; 1; 3] ++ [Exit]).
Proof.
  apply (mode_set_methods_run (quiet 8) [3; 1; 3] []).
  - apply quiet_cooperative.
  - reflexivity.
Defined.

Lemma for_each_stops_at_bad_conversion self (g : Z -> command)
      (good : list Z) (bad : Z) (rest : list Z) :
  (forall h c, on_command self h c = None) ->
  forallb in_UInt32 good = true ->
  in_UInt32 bad = false ->
  forall h,
    for_each (good ++ bad :: rest)
             (fun chan => c <- lift (UInt32 chan) ;; command_ self (g c)) h
    = (inl OverflowError, h ++ map (fun c => Cmd (g c)) good).
Proof.
  intros Hacc Hgood Hbad. induction good as [|a good IH]; intros h.
  - simpl app. rewrite for_each_cons, convert_then_command.
    unfold UInt32. rewrite Hbad. simpl. now rewrite app_nil_r.
  - simpl in Hgood. apply andb_true_iff in Hgood as [Ha Hgood].
    simpl app. rewrite for_each_cons, convert_then_command.
    rewrite (UInt32_inr _ Ha), Hacc, (IH Hgood), <- app_assoc.
    reflexivity.
Qed.

(** X4. A mode set over a list stops at the first channel index outside the
    range of [UInt32] (a negative one, say): on a device that accepts
    everything, the channels before it have been set, the session is left,
    the call raises [OverflowError], and the channels after it are not
    touched.  The list is not checked as a whole before the first call. *)
Theorem mode_set_stops_at_bad_channel :
  forall (self : device) (good : list Z) (bad : Z) (rest : list Z)
         (h : list event),
    cooperative self ->
    forallb in_UInt32 good = true ->
    in_UInt32 bad = false ->
    set_current_mode self (good ++ bad :: rest) h =
    (inl OverflowError,
     h ++ [Enter] ++ map (fun c => Cmd (SetCurrentMode (Some c))) good
       ++ [Exit]) /\
    set_voltage_mode self (good ++ bad :: rest) h =
    (inl OverflowError,
     h ++ [Enter] ++ map (fun c => Cmd (SetVoltageMode (Some c))) good
       ++ [Exit]).
Proof.
  intros self good bad rest h (Hen & Hcmd & _) Hgood Hbad.
  assert (Hne : Py.eq_nil (good ++ bad :: rest) = false)
    by now destruct good.
  unfold set_current_mode, set_voltage_mode. rewrite Hne.
  unfold with_interface. rewrite Hen.
  rewrite (for_each_stops_at_bad_conversion self
             (fun c => SetCurrentMode (Some c)) good bad rest Hcmd Hgood Hbad).
  rewrite (for_each_stops_at_bad_conversion self
             (fun c => SetVoltageMode (Some c)) good bad rest Hcmd Hgood Hbad).
  now rewrite <- !app_assoc.
Qed.

Lemma mode_set_stops_at_bad_channel_witness :
  set_current_mode (quiet 8) ([0; 1] ++ (-1) :: [2]) [] =
  (inl OverflowError,
   [] ++ [Enter] ++ map (fun c => Cmd (SetCurrentMode (Some c))) [0; 1]
      ++ [Exit]) /\
  set_voltage_mode (quiet 8) ([0; 1] ++ (-1) :: [2]) [] =
  (inl OverflowError,
   [] ++ [Enter] ++ map (fun c => Cmd (SetVoltageMode (Some c))) [0; 1]
      ++ [Exit]).
Proof.
  apply (mode_set_stops_at_bad_channel (quiet 8) [0; 1] (-1) [2] []).
  - apply quiet_cooperative.
  - reflexivity.
  - reflexivity.
Defined.

(** ** Starting and stopping a selection *)

(** X5. With an explicit, non-empty selection whose bitmask fits [UInt32],
    [stop_stimulation] does not ask for the channel count: on a device whose
    session opens, the whole run is one session with one stop command that
    carries the bitmask of the selection, and the call's outcome is that
    command's outcome.  [start_stimulation] does the same with a start
    command, for every selection, the empty one included. *)
Theorem selection_is_sent_as_given :
  forall (self : device) (triggerIndex : list Z) (h : list event),
    on_enter self h = None ->
    in_UInt32 (bitmap triggerIndex) = true ->
    (triggerIndex <> [] ->
     stop_stimulation self triggerIndex h =
     (outcome_of (on_command self (h ++ [Enter])
                             (SendStop (bitmap triggerIndex))),
      h ++ [Enter; Cmd (SendStop (bitmap triggerIndex)); Exit])) /\
    start_stimulation self triggerIndex h =
    (outcome_of (on_command self (h ++ [Enter])
                            (SendStart (bitmap triggerIndex))),
     h ++ [Enter; Cmd (SendStart (bitmap triggerIndex)); Exit]).
Proof.
  intros self t h Hen Hfit. split.
  - intros Hne. unfold stop_stimulation.
    destruct t as [|i t]; [contradiction|]. cbn [Py.eq_nil].
    unfold bind at 1, ret at 1. cbv beta iota.
    unfold with_interface. rewrite Hen. unfold bind, lift.
    rewrite (UInt32_inr _ Hfit). unfold command_, outcome_of.
    destruct (on_command self _ _); now rewrite <- !app_assoc.
  - unfold start_stimulation. cbn [Py.is_fresh_nil].
    unfold bind at 1, ret at 1. cbv beta iota.
    unfold with_interface. rewrite Hen. unfold bind, lift.
    rewrite (UInt32_inr _ Hfit). unfold command_, outcome_of.
    destruct (on_command self _ _); now rewrite <- !app_assoc.
Qed.

Lemma selection_is_sent_as_given_witness :
  ([0; 2; 5] <> [] ->
   stop_stimulation (quiet 8) [0; 2; 5] [] =
   (outcome_of (on_command (quiet 8) ([] ++ [Enter])
                           (SendStop (bitmap [0; 2; 5]))),
    [] ++ [Enter; Cmd (SendStop (bitmap [0; 2; 5])); Exit])) /\
  start_stimulation (quiet 8) [0; 2; 5] [] =
  (outcome_of (on_command (quiet 8) ([] ++ [Enter])
                          (SendStart (bitmap [0; 2; 5]))),
   [] ++ [Enter; Cmd (SendStart (bitmap [0; 2; 5])); Exit]).
Proof.
  apply (selection_is_sent_as_given (quiet 8) [0; 2; 5] []); reflexivity.
Defined.

Lemma channel_count_cases self h :
  channel_count self h =
  match on_enter self h with
  | Some x => (inl (DeviceError x), h ++ [Enter])
  | None =>
      match on_query self (h ++ [Enter]) GetNumberOfAnalogChannels with
      | inl x => (inl (DeviceError x),
                  h ++ [Enter; Ask GetNumberOfAnalogChannels; Exit])
      | inr n => (inr n, h ++ [Enter; Ask GetNumberOfAnalogChannels; Exit])
      end
  end.
Proof.
  unfold channel_count, bind, with_interface, ask, ret.
  destruct (on_enter self h); [reflexivity|].
  destruct (on_query self (h ++ [Enter]) GetNumberOfAnalogChannels);
    now rewrite <- !app_assoc.
Qed.

Lemma bind_ret_steps {A B} (m : M A) (f : A -> B) h :
  (x <- m ;; ret (f x)) h =
  match m h with
  | (inl x, h1) => (inl x, h1)
  | (inr a, h1) => (inr (f a), h1)
  end.
Proof. reflexivity. Qed.

Lemma stop_stimulation_steps self (triggerIndex : list Z) h :
  stop_stimulation self triggerIndex h =
  match (if Py.eq_nil triggerIndex then
           n <- channel_count self ;; ret (map (fun c => c) (Py.range n))
         else ret triggerIndex) h with
  | (inl x, h1) => (inl x, h1)
  | (inr sel, h1) =>
      with_interface self
        (m <- lift (UInt32 (bitmap sel)) ;; command_ self (SendStop m)) h1
  end.
Proof. reflexivity. Qed.

Lemma commands_app (a b : list event) :
  commands (a ++ b) = commands a ++ commands b.
Proof. unfold commands. apply flat_map_app. Qed.

(** X6. Whatever the device answers and whatever the selection,
    [stop_stimulation] asks for at most one command, and that command is a
    stop; [start_stimulation] asks for at most one command, a start, and
    never asks a query.  Neither sets an electrical mode, transfers a
    waveform or touches the trigger map. *)
Theorem start_and_stop_send_one_command :
  forall (self : device) (triggerIndex : list Z) (h : list event),
    (exists new,
        snd (stop_stimulation self triggerIndex h) = h ++ new /\
        (commands new = [] \/ exists mask, commands new = [SendStop mask])) /\
    (exists new,
        snd (start_stimulation self triggerIndex h) = h ++ new /\
        (commands new = [] \/ exists mask, commands new = [SendStart mask]) /\
        (forall q, ~ In (Ask q) new)).
Proof.
  intros self t h.
  assert (Hone : forall (mk : Z -> command) (sel : list Z) h0,
             exists new,
               snd (with_interface self
                      (m <- lift (UInt32 (bitmap sel)) ;;
                       command_ self (mk m)) h0) = h0 ++ new /\
               (commands new = [] \/ commands new = [mk (bitmap sel)]) /\
               (forall q, ~ In (Ask q) new)).
  { intros mk sel h0. unfold with_interface.
    destruct (on_enter self h0).
    - exists [Enter]. simpl. split; [reflexivity|]. split; [now left|].
      intros q [Hq|[]]. discriminate.
    - unfold bind, lift, UInt32. destruct (in_UInt32 (bitmap sel)).
      + unfold command_.
        exists [Enter; Cmd (mk (bitmap sel)); Exit].
        split; [destruct (on_command self _ _); now rewrite <- !app_assoc|].
        split; [now right|].
        intros q [Hq|[Hq|[Hq|[]]]]; discriminate.
      + exists [Enter; Exit]. simpl. split; [now rewrite <- !app_assoc|].
        split; [now left|].
        intros q [Hq|[Hq|[]]]; discriminate. }
  split.
  - rewrite stop_stimulation_steps. destruct t as [|i t]; cbn [Py.eq_nil].
    + rewrite bind_ret_steps, channel_count_cases.
      destruct (on_enter self h).
      * exists [Enter]. simpl. split; [reflexivity | now left].
      * destruct (on_query self (h ++ [Enter]) GetNumberOfAnalogChannels)
          as [x|n].
        -- exists [Enter; Ask GetNumberOfAnalogChannels; Exit]. simpl.
           split; [reflexivity | now left].
        -- destruct (Hone SendStop (map (fun c => c) (Py.range n))
                          (h ++ [Enter; Ask GetNumberOfAnalogChannels; Exit]))
             as (new & Hlog & Hcmds & _).
           exists ([Enter; Ask GetNumberOfAnalogChannels; Exit] ++ new).
           split.
           ++ rewrite Hlog. now rewrite <- !app_assoc.
           ++ rewrite commands_app. simpl.
              destruct Hcmds as [->| ->]; [now left | right; eauto].
    + unfold ret. cbv beta iota.
      destruct (Hone SendStop (i :: t) h) as (new & Hlog & Hcmds & _).
      exists new. split; [exact Hlog|].
      destruct Hcmds as [->| ->]; [now left | right; eauto].
  - unfold start_stimulation. cbn [Py.is_fresh_nil].
    unfold bind at 1, ret at 1. cbv beta iota.
    destruct (Hone SendStart t h) as (new & Hlog & Hcmds & Hask).
    exists new. split; [exact Hlog|]. split; [|exact Hask].
    destruct Hcmds as [->| ->]; [now left | right; eauto].
Qed.

(** ** What [_download] asks of the device, and of which channels *)

Lemma set_mode_events self tag chans h :
  exists new,
    snd (set_mode self tag chans h) = h ++ new /\
    (forall e, In e new ->
       e = Enter \/ e = Exit \/
       (chans = [] /\ e = Cmd (mode_set tag None)) \/
       (exists c, In c chans /\ e = Cmd (mode_set tag (Some c)))).
Proof.
  assert (Hgen : forall mk : option Z -> command,
             forall run : M unit,
               run = (if Py.eq_nil chans then
                        with_interface self (command_ self (mk None))
                      else
                        with_interface self
                          (for_each chans (fun chan =>
                             c <- lift (UInt32 chan) ;;
                             command_ self (mk (Some c))))) ->
               exists new,
                 snd (run h) = h ++ new /\
                 (forall e, In e new ->
                    e = Enter \/ e = Exit \/
                    (chans = [] /\ e = Cmd (mk None)) \/
                    (exists c, In c chans /\ e = Cmd (mk (Some c))))).
  { intros mk run ->. destruct chans as [|c0 chans']; cbn [Py.eq_nil].
    - rewrite with_interface_command.
      destruct (on_enter self h).
      + exists [Enter]. simpl. split; [reflexivity|].
        intros e [<-|[]]. now left.
      + exists [Enter; Cmd (mk None); Exit]. simpl. split; [reflexivity|].
        intros e [<-|[<-|[<-|[]]]]; auto.
    - unfold with_interface. destruct (on_enter self h).
      + exists [Enter]. simpl. split; [reflexivity|].
        intros e [<-|[]]. now left.
      + destruct (for_each_commands_log self UInt32 (fun c => mk (Some c))
                    (fun a c H => proj1 (UInt32_returns a c H))
                    (c0 :: chans') (h ++ [Enter])) as (k & Hlog & _).
        destruct (for_each (c0 :: chans') _ (h ++ [Enter])) as [r h1].
        simpl snd in *. subst h1.
        exists (Enter :: map (fun c => Cmd (mk (Some c)))
                             (firstn k (c0 :: chans')) ++ [Exit]).
        split; [now rewrite <- !app_assoc|].
        intros e [<-|He]; [now left|].
        apply in_app_or in He as [He|[<-|[]]]; [|auto].
        apply in_map_iff in He as (c & <- & Hc).
        right. right. right. exists c. split; [|reflexivity].
        eapply In_firstn, Hc. }
  destruct tag.
  - apply (Hgen SetCurrentMode); reflexivity.
  - apply (Hgen SetVoltageMode); reflexivity.
Qed.

(** X7. Whatever the device answers and whatever the arguments, everything
    [_download] adds to the log is a session end, a mode set or a transfer
    of the requested mode, and nothing else: no channel outside the list is
    ever addressed, the no-argument mode set (all channels) is asked only
    for the empty list, and every transfer carries the amplitude and duration
    sequences exactly as they were given, the same for every channel. *)
Theorem download_touches_named_channels_only :
  forall (self : device) chans amps durs (mode : string) (h : list event),
    exists new,
      snd (_download self chans amps durs mode h) = h ++ new /\
      (forall e, In e new ->
         e = Enter \/ e = Exit \/
         exists tag,
           tag_of mode = Some tag /\
           ((chans = [] /\ e = Cmd (mode_set tag None)) \/
            (exists c, In c chans /\
               (e = Cmd (mode_set tag (Some c)) \/
                e = Cmd (PrepareAndSendData c amps durs tag))))).
Proof.
  intros self chans amps durs mode h.
  assert (Hnone : exists new : list event,
             h = h ++ new /\
             (forall e, In e new ->
                e = Enter \/ e = Exit \/
                exists tag,
                  tag_of mode = Some tag /\
                  ((chans = [] /\ e = Cmd (mode_set tag None)) \/
                   (exists c, In c chans /\
                      (e = Cmd (mode_set tag (Some c)) \/
                       e = Cmd (PrepareAndSendData c amps durs tag)))))).
  { exists []. rewrite app_nil_r. split; [reflexivity|]. intros e []. }
  destruct (Nat.eq_dec (List.length amps) (List.length durs)) as [Hlen|Hlen].
  2:{ now rewrite (download_length_mismatch_log self h chans amps durs mode
                     Hlen). }
  rewrite (_download_cases _ _ _ _ _ _ Hlen).
  destruct (forallb in_Int32 amps && forallb in_UInt64 durs); [|exact Hnone].
  destruct (tag_of mode) as [tag|]; [|exact Hnone].
  unfold set_mode_then_transfer, bind.
  destruct (set_mode_events self tag chans h) as (new1 & Hlog1 & Hev1).
  destruct (set_mode self tag chans h) as [[x|[]] h1];
    simpl snd in *; subst h1.
  - exists new1. split; [reflexivity|].
    intros e He. destruct (Hev1 e He) as [->|[->|[[Hc ->]|(c & Hc & ->)]]];
      auto; right; right; exists tag; split; auto.
    right. exists c. auto.
  - destruct (transfer_loop_log self tag chans amps durs (h ++ new1))
      as (evs & Hlog2 & Hev2).
    exists (new1 ++ Enter :: evs). rewrite Hlog2, <- app_assoc.
    split; [reflexivity|].
    intros e He. apply in_app_or in He as [He|[<-|He]]; [|now left|].
    + destruct (Hev1 e He) as [->|[->|[[Hc ->]|(c & Hc & ->)]]];
        auto; right; right; exists tag; split; auto.
      right. exists c. auto.
    + destruct (Hev2 e He) as [->|(c & Hc & ->)]; auto.
      right. right. exists tag. split; [reflexivity|].
      right. exists c. auto.
Qed.

Lemma set_mode_then_transfer_tail self tag chans amps durs h
      pre c a d m post :
  snd (set_mode_then_transfer self tag chans amps durs h)
  = h ++ pre ++ Cmd (PrepareAndSendData c a d m) :: post ->
  forall e, In e post -> e = Exit \/ is_transfer e = true.
Proof.
  unfold set_mode_then_transfer, bind.
  destruct (set_mode_log self tag chans h) as (new1 & Hlog1 & Hnot & _).
  destruct (set_mode self tag chans h) as [[x|[]] h1];
    simpl fst in *; simpl snd in *; subst h1.
  - intros Heq. apply app_inv_head in Heq.
    assert (Hin : In (Cmd (PrepareAndSendData c a d m)) new1)
      by (rewrite Heq; apply in_or_app; right; now left).
    apply Hnot in Hin. discriminate.
  - destruct (transfer_loop_log self tag chans amps durs (h ++ new1))
      as (evs & Hlog2 & Hevs).
    rewrite Hlog2, <- app_assoc. intros Heq. apply app_inv_head in Heq.
    change (new1 ++ Enter :: evs) with (new1 ++ [Enter] ++ evs) in Heq.
    rewrite app_assoc in Heq.
    apply app_split_not_in in Heq as (pre' & -> & Hevs').
    + intros e He.
      assert (Hin : In e evs)
        by (rewrite Hevs'; apply in_or_app; right; now right).
      apply Hevs in Hin as [->|(c' & _ & ->)]; [now left | now right].
    + intros Hin. apply in_app_or in Hin as [Hin|[Hin|[]]];
        [|discriminate].
      apply Hnot in Hin. discriminate.
Qed.

(** X8. In a run of [_download], once the first transfer has been asked, the
    only things asked after it are further transfers and the end of their
    session: no mode set (or anything else) comes after a transfer, so the
    mode of no channel changes between its transfer and the end of the
    call. *)
Theorem nothing_but_transfers_after_a_transfer :
  forall (self : device) chans amps durs (mode : string) (h : list event)
         pre c a d m post,
    snd (_download self chans amps durs mode h)
    = h ++ pre ++ Cmd (PrepareAndSendData c a d m) :: post ->
    forall e, In e post -> e = Exit \/ is_transfer e = true.
Proof.
  intros self chans amps durs mode h pre c a d m post Hlog e He.
  destruct (Nat.eq_dec (List.length amps) (List.length durs)) as [Hlen|Hlen].
  - rewrite (_download_cases _ _ _ _ _ _ Hlen) in Hlog.
    destruct (forallb in_Int32 amps && forallb in_UInt64 durs);
      [|now apply no_event_in_untouched_log in Hlog].
    destruct (tag_of mode) as [tag|];
      [|now apply no_event_in_untouched_log in Hlog].
    eapply set_mode_then_transfer_tail; [exact Hlog | exact He].
  - rewrite (download_length_mismatch_log self h chans amps durs mode Hlen)
      in Hlog.
    now apply no_event_in_untouched_log in Hlog.
Qed.

Lemma nothing_but_transfers_after_a_transfer_witness :
  Cmd (PrepareAndSendData 1 [1000000] [100] CURRENT) = Exit \/
  is_transfer (Cmd (PrepareAndSendData 1 [1000000] [100] CURRENT)) = true.
Proof.
  apply (nothing_but_transfers_after_a_transfer
           (quiet 8) [3; 1] [1000000] [100] "current" []
           [Enter; Cmd (SetCurrentMode (Some 3));
            Cmd (SetCurrentMode (Some 1)); Exit; Enter]
           3 [1000000] [100] CURRENT
           [Cmd (PrepareAndSendData 1 [1000000] [100] CURRENT); Exit]).
  - reflexivity.
  - now left.
Defined.

(** ** Values the conversions refuse *)

(** X9. With sequences of one length, one amplitude outside the range of [Int32]
    or one duration outside the range of [UInt64] is enough for [_download]
    to raise [OverflowError] with the log untouched: the sequences are
    converted as a whole before the mode is looked at and before the first
    session, so no channel has its mode set and nothing is transferred,
    whatever the mode and the channel list. *)
Theorem download_converts_before_any_call :
  forall (self : device) chans amps durs (mode : string) (h : list event),
    List.length amps = List.length durs ->
    forallb in_Int32 amps && forallb in_UInt64 durs = false ->
    _download self chans amps durs mode h = (inl OverflowError, h).
Proof.
  intros self chans amps durs mode h Hlen Hbad.
  now rewrite (_download_cases _ _ _ _ _ _ Hlen), Hbad.
Qed.

Lemma download_converts_before_any_call_witness :
  _download (quiet 8) [0; 1] [0; 1] [100; -1] "voltage" [] =
  (inl OverflowError, []).
Proof.
  apply (download_converts_before_any_call
           (quiet 8) [0; 1] [0; 1] [100; -1] "voltage" []); reflexivity.
Defined.

Lemma trunc_at_least (x : Q) (k : Z) :
  0 <= k -> (inject_Z k <= x)%Q -> k <= Py.trunc x.
Proof.
  intros Hk Hx. destruct (trunc_truncates x) as [Hpos _].
  assert (H0 : (0 <= x)%Q).
  { eapply Qle_trans; [|exact Hx]. change 0%Q with (inject_Z 0).
    now rewrite <- Zle_Qle. }
  destruct (Hpos H0) as [_ Hlt].
  assert (Hkz : (inject_Z k < inject_Z (Py.trunc x + 1))%Q).
  { rewrite inject_Z_plus. eapply Qle_lt_trans; [exact Hx | exact Hlt]. }
  rewrite <- Zlt_Qlt in Hkz. lia.
Qed.

Lemma trunc_at_most (x : Q) (k : Z) :
  k <= 0 -> (x <= inject_Z k)%Q -> Py.trunc x <= k.
Proof.
  intros Hk Hx. destruct (trunc_truncates x) as [_ Hneg].
  assert (H0 : (x <= 0)%Q).
  { eapply Qle_trans; [exact Hx|]. change 0%Q with (inject_Z 0).
    now rewrite <- Zle_Qle. }
  destruct (Hneg H0) as [Hlt _].
  assert (Hkz : (inject_Z (Py.trunc x + -1) < inject_Z k)%Q).
  { rewrite inject_Z_plus. eapply Qlt_le_trans; [exact Hlt | exact Hx]. }
  rewrite <- Zlt_Qlt in Hkz. lia.
Qed.

Lemma trunc_small (x : Q) :
  (inject_Z (-1) < x)%Q -> (x < inject_Z 1)%Q -> Py.trunc x = 0.
Proof.
  intros Hlo Hhi.
  destruct (trunc_truncates x) as [Hpos Hneg].
  destruct (Qlt_le_dec x 0) as [Hx|Hx].
  - destruct (Hneg (Qlt_le_weak _ _ Hx)) as [H1 H2].
    assert (Ha : (inject_Z (-1) < inject_Z (Py.trunc x))%Q)
      by (eapply Qlt_le_trans; eassumption).
    assert (Hb : (inject_Z (Py.trunc x + -1) < inject_Z 0)%Q)
      by (rewrite inject_Z_plus; eapply Qlt_trans; eassumption).
    rewrite <- Zlt_Qlt in Ha, Hb. lia.
  - destruct (Hpos Hx) as [H1 H2].
    assert (Ha : (inject_Z (Py.trunc x) < inject_Z 1)%Q)
      by (eapply Qle_lt_trans; eassumption).
    assert (Hb : (inject_Z 0 < inject_Z (Py.trunc x + 1))%Q)
      by (rewrite inject_Z_plus; eapply Qle_lt_trans; eassumption).
    rewrite <- Zlt_Qlt in Ha, Hb. lia.
Qed.

Lemma forallb_false_of_In {A} (p : A -> bool) (l : list A) (a : A) :
  In a l -> p a = false -> forallb p l = false.
Proof.
  intros Hin Hp. destruct (forallb p l) eqn:E; [|reflexivity].
  rewrite forallb_forall in E. rewrite (E a Hin) in Hp. discriminate.
Qed.

Lemma convert_all_inl {A B} (f : A -> exn + B) (l : list A) x :
  convert_all f l = inl x -> exists a, In a l /\ f a = inl x.
Proof.
  induction l as [|a l IH]; simpl; [discriminate|].
  destruct (f a) as [y|b] eqn:Ea.
  - intros [= <-]. exists a. auto.
  - destruct (convert_all f l) as [y|bs]; [|discriminate].
    intros [= <-]. destruct (IH eq_refl) as (a' & Hin & Ha'). eauto.
Qed.

Lemma Forall2_In_l {A B} (R : A -> B -> Prop) (l : list A) (bs : list B) a :
  Forall2 R l bs -> In a l -> exists b, In b bs /\ R a b.
Proof.
  induction 1 as [|a0 b0 l bs Hab _ IH]; simpl; [tauto|].
  intros [->|Hin]; [eauto|].
  destruct (IH Hin) as (b & Hb & HR). eauto.
Qed.

(** X10. [download] refuses, before it asks anything of the device, a value
    that is out of the device's range: if the product of some amplitude with
    a million is 2^31 or more, or -(2^31 + 1) or less, or the product of some
    duration with a thousand is -1 or less, the call raises and the log is
    untouched.  With sequences of one length whose products all have a value
    (none infinite, none NaN), what it raises is [OverflowError]. *)
Theorem download_refuses_out_of_range :
  forall (self : device) (channel_index : Z)
         (amplitudes_in_mA durations_in_ms : list Py.number) (h : list event),
    (exists a v, In a amplitudes_in_mA /\
                 Py.number_value (Py.mul_int a 1000000) = Some v /\
                 (inject_Z (2 ^ 31) <= v \/ v <= inject_Z (- 2 ^ 31 - 1))%Q) \/
    (exists d v, In d durations_in_ms /\
                 Py.number_value (Py.mul_int d 1000) = Some v /\
                 (v <= inject_Z (-1))%Q) ->
    exists x,
      download self channel_index amplitudes_in_mA durations_in_ms h
      = (inl x, h) /\
      (List.length amplitudes_in_mA = List.length durations_in_ms ->
       (forall a, In a amplitudes_in_mA ->
                  Py.number_value (Py.mul_int a 1000000) <> None) ->
       (forall d, In d durations_in_ms ->
                  Py.number_value (Py.mul_int d 1000) <> None) ->
       x = OverflowError).
Proof.
  intros self ch amps durs h Hbad. rewrite download_steps.
  assert (Hval : forall (g : Py.number -> Py.number) (l : list Py.number) x,
             convert_all (fun a => Py.int (g a)) l = inl x ->
             (forall a, In a l -> Py.number_value (g a) <> None) -> False).
  { intros g l x Hx Hall.
    apply convert_all_inl in Hx as (a & Hin & Ha).
    specialize (Hall a Hin).
    destruct (Py.number_value (g a)) as [v|] eqn:Ev; [|now apply Hall].
    rewrite (int_of_valued _ _ Ev) in Ha. discriminate. }
  destruct (convert_all (fun a => Py.int (Py.mul_int a 1000000)) amps)
    as [x|A] eqn:Ea.
  { exists x. split; [reflexivity|]. intros _ Ha _. exfalso.
    exact (Hval (fun a => Py.mul_int a 1000000) amps x Ea Ha). }
  destruct (convert_all (fun s => Py.int (Py.mul_int s 1000)) durs)
    as [x|D] eqn:Ed.
  { exists x. split; [reflexivity|]. intros _ _ Hd. exfalso.
    exact (Hval (fun s => Py.mul_int s 1000) durs x Ed Hd). }
  pose proof (convert_all_inr _ _ _ Ea) as FA.
  pose proof (convert_all_inr _ _ _ Ed) as FD.
  destruct (Nat.eq_dec (List.length A) (List.length D)) as [Hlen|Hlen].
  - rewrite (_download_cases _ _ _ _ _ _ Hlen).
    assert (Hb : forallb in_Int32 A && forallb in_UInt64 D = false).
    { destruct Hbad as [(a & v & Hin & Hv & Hout) | (d & v & Hin & Hv & Hout)].
      - destruct (Forall2_In_l _ _ _ a FA Hin) as (z & Hz & Hconv).
        cbv beta in Hconv.
        rewrite (int_of_valued _ _ Hv) in Hconv. injection Hconv as <-.
        rewrite (forallb_false_of_In in_Int32 A _ Hz); [reflexivity|].
        unfold in_Int32. destruct Hout as [Hhi|Hlo].
        + apply (trunc_at_least _ (2 ^ 31)) in Hhi; [|lia].
          apply andb_false_iff. right. apply Z.ltb_ge. exact Hhi.
        + apply (trunc_at_most _ (- 2 ^ 31 - 1)) in Hlo; [|lia].
          apply andb_false_iff. left. apply Z.leb_gt. lia.
      - destruct (Forall2_In_l _ _ _ d FD Hin) as (z & Hz & Hconv).
        cbv beta in Hconv.
        rewrite (int_of_valued _ _ Hv) in Hconv. injection Hconv as <-.
        rewrite (forallb_false_of_In in_UInt64 D _ Hz);
          [apply andb_false_r|].
        unfold in_UInt64. apply (trunc_at_most _ (-1)) in Hout; [|lia].
        apply andb_false_iff. left. apply Z.leb_gt. lia. }
    rewrite Hb. exists OverflowError. now split.
  - rewrite (download_length_mismatch_log self h [ch] A D "current" Hlen).
    eexists. split; [reflexivity|]. intros Heq _ _. exfalso. apply Hlen.
    rewrite <- (Forall2_length FA), <- (Forall2_length FD). exact Heq.
Qed.

(** The double nearest 2147.483648 mA: its product with a million is 2^31
    exactly. *)
Lemma download_refuses_out_of_range_witness :
  exists x,
    download (quiet 8) 0
             [Py.Int 1; Py.Float (Py.ratio 2147483648 1000000)]
             [Py.Float (Py.ratio 1 10); Py.Float (Py.ratio 1 10)] []
    = (inl x, []) /\
    (List.length [Py.Int 1; Py.Float (Py.ratio 2147483648 1000000)]
     = List.length [Py.Float (Py.ratio 1 10); Py.Float (Py.ratio 1 10)] ->
     (forall a, In a [Py.Int 1; Py.Float (Py.ratio 2147483648 1000000)] ->
                Py.number_value (Py.mul_int a 1000000) <> None) ->
     (forall d, In d [Py.Float (Py.ratio 1 10); Py.Float (Py.ratio 1 10)] ->
                Py.number_value (Py.mul_int d 1000) <> None) ->
     x = OverflowError).
Proof.
  apply (download_refuses_out_of_range
           (quiet 8) 0
           [Py.Int 1; Py.Float (Py.ratio 2147483648 1000000)]
           [Py.Float (Py.ratio 1 10); Py.Float (Py.ratio 1 10)] []).
  left.
  exists (Py.Float (Py.ratio 2147483648 1000000)),
         (4503599627370496 # 2097152).
  split; [right; now left|].
  split; [vm_compute; reflexivity|].
  left. vm_compute. discriminate.
Defined.

(** ** How the conversion treats signs and small values *)

Lemma binary_round_aux_opp (s : bool) (m e : Z) (l : location) :
  binary_round_aux Py.prec Py.emax (negb s) m e l =
  SFopp (binary_round_aux Py.prec Py.emax s m e l).
Proof.
  unfold binary_round_aux.
  destruct (shr_fexp Py.prec Py.emax m e l) as [mrs' e'].
  destruct (shr_fexp Py.prec Py.emax _ e' loc_Exact) as [mrs'' e''].
  destruct (shr_m mrs''); try reflexivity.
  now destruct (Z.leb e'' (Z.sub Py.emax Py.prec)).
Qed.

Lemma SFmul_opp_l (f g : spec_float) :
  SFmul Py.prec Py.emax (SFopp f) g = SFopp (SFmul Py.prec Py.emax f g).
Proof.
  destruct f as [sf|sf| |sf mf ef], g as [sg|sg| |sg mg eg]; simpl;
    try reflexivity; try (now destruct sf, sg).
  rewrite <- binary_round_aux_opp. now destruct sf, sg.
Qed.

Lemma trunc_value_opp (f : spec_float) :
  Py.trunc (Py.value (SFopp f)) = - Py.trunc (Py.value f).
Proof.
  destruct f as [s|s| |s m e]; try reflexivity.
  unfold Py.trunc, SFopp, Py.value.
  destruct s, e; cbn [negb inject_Z Qnum Qden];
    rewrite <- Z.quot_opp_l by discriminate; f_equal;
    change (Z.neg m) with (- Z.pos m); ring.
Qed.

Lemma int_mul_int_neg (a : Py.number) (k : Z) :
  Py.int (Py.mul_int (Py.neg a) k) =
  match Py.int (Py.mul_int a k) with
  | inr z => inr (- z)
  | inl x => inl x
  end.
Proof.
  destruct a as [z|f]; simpl.
  - f_equal. lia.
  - rewrite SFmul_opp_l.
    pose proof (trunc_value_opp (SFmul Py.prec Py.emax f (Py.float_of_Z k)))
      as Ht.
    destruct (SFmul Py.prec Py.emax f (Py.float_of_Z k)) as [s|s| |s m e];
      try reflexivity; simpl SFopp in *; cbv iota; now rewrite Ht.
Qed.

(** X11. The unit conversion of [download] is symmetric about zero: for every
    amplitude and every duration, int or float, the opposite input gives the
    opposite device value, and its conversion fails exactly when the
    conversion of the input fails, with the same exception.  The two phases
    of a pulse given as [a] and [-a] are sent with equal size. *)
Theorem unit_conversion_is_odd :
  forall a : Py.number,
    Py.int (Py.mul_int (Py.neg a) 1000000) =
    match Py.int (Py.mul_int a 1000000) with
    | inr z => inr (- z)
    | inl x => inl x
    end /\
    Py.int (Py.mul_int (Py.neg a) 1000) =
    match Py.int (Py.mul_int a 1000) with
    | inr z => inr (- z)
    | inl x => inl x
    end.
Proof.
  intros a. split; apply int_mul_int_neg.
Qed.

(** X12. A duration whose product with a thousand lies strictly between -1
    and 1 is sent as 0, since [int()] drops the fraction toward zero.  In
    particular a negative duration such as -0.0005 ms is not refused: on a
    device that accepts everything, with a channel index and an amplitude
    that pass their conversions, [download] completes and transfers the
    duration 0. *)
Theorem download_sends_tiny_durations_as_zero :
  forall (self : device) (channel_index : Z) (a d : Py.number)
         (amplitude : Z) (v : Q) (h : list event),
    cooperative self ->
    in_UInt32 channel_index = true ->
    Py.int (Py.mul_int a 1000000) = inr amplitude ->
    in_Int32 amplitude = true ->
    Py.number_value (Py.mul_int d 1000) = Some v ->
    (inject_Z (-1) < v)%Q ->
    (v < inject_Z 1)%Q ->
    download self channel_index [a] [d] h =
    (inr tt,
     h ++ [Enter; Cmd (SetCurrentMode (Some channel_index)); Exit;
           Enter;
           Cmd (PrepareAndSendData channel_index [amplitude] [0] CURRENT);
           Exit]).
Proof.
  intros self ch a d za v h Hco Hch Hza Ha Hv Hlo Hhi.
  rewrite download_steps. cbn [convert_all].
  rewrite Hza, (int_of_valued _ _ Hv), (trunc_small _ Hlo Hhi).
  rewrite (_download_converted self [ch] _ _ "current" h);
    [| reflexivity | now simpl; rewrite Ha | reflexivity].
  change (tag_of "current") with (Some CURRENT). cbv iota.
  rewrite (set_mode_then_transfer_accepted self CURRENT [ch] _ _ h Hco);
    [reflexivity | now simpl; rewrite Hch].
Qed.

Lemma download_sends_tiny_durations_as_zero_witness :
  download (quiet 8) 0 [Py.Int 1] [Py.Float (SFopp (Py.ratio 1 2000))] [] =
  (inr tt,
   [] ++ [Enter; Cmd (SetCurrentMode (Some 0)); Exit;
          Enter;
          Cmd (PrepareAndSendData 0 [1000000] [0] CURRENT);
          Exit]).
Proof.
  apply (download_sends_tiny_durations_as_zero
           (quiet 8) 0 (Py.Int 1) (Py.Float (SFopp (Py.ratio 1 2000)))
           1000000 (-4503599627370496 # 9007199254740992) []).
  - apply quiet_cooperative.
  - reflexivity.
  - reflexivity.
  - reflexivity.
  - vm_compute. reflexivity.
  - reflexivity.
  - reflexivity.
Defined.

(** ** A device that reports no channel *)

Lemma range_nonpos (n : Z) : n <= 0 -> Py.range n = [].
Proof.
  intros Hn. unfold Py.range.
  replace (Z.to_nat n) with 0%nat by lia. reflexivity.
Qed.

(** X13. When the device reports a channel count of zero (or less), the wrapper
    does not stop short: [diagonalize_triggermap] still asks for a trigger
    setup, with three empty lists, and [stop_stimulation] with the default
    selection still asks for a stop, with the empty bitmask 0, which selects
    no trigger. *)
Theorem no_channel_still_calls_the_device :
  forall (self : device) (h : list event) (n : Z),
    n <= 0 ->
    on_enter self h = None ->
    on_query self (h ++ [Enter]) GetNumberOfAnalogChannels = inr n ->
    on_enter self (h ++ [Enter; Ask GetNumberOfAnalogChannels; Exit]) = None ->
    snd (diagonalize_triggermap self h) =
    h ++ [Enter; Ask GetNumberOfAnalogChannels; Exit;
          Enter; Cmd (SetupTrigger 0 [] [] []); Exit] /\
    snd (stop_stimulation self [] h) =
    h ++ [Enter; Ask GetNumberOfAnalogChannels; Exit;
          Enter; Cmd (SendStop 0); Exit].
Proof.
  intros self h n Hn Hen Hq Hen2. split.
  - unfold diagonalize_triggermap, bind.
    rewrite (channel_count_answered _ _ _ Hen Hq), (range_nonpos n Hn).
    cbn [triggermap_loop fold_left].
    rewrite with_interface_command, Hen2. simpl snd.
    now rewrite <- app_assoc.
  - rewrite stop_stimulation_steps. cbn [Py.eq_nil].
    rewrite bind_ret_steps, (channel_count_answered _ _ _ Hen Hq).
    rewrite (range_nonpos n Hn). cbn [map bitmap fold_right].
    unfold with_interface. rewrite Hen2. unfold bind, lift.
    change (UInt32 0) with (@inr exn Z 0). unfold command_.
    destruct (on_command self _ _); simpl; now rewrite <- !app_assoc.
Qed.

Lemma no_channel_still_calls_the_device_witness :
  snd (diagonalize_triggermap (quiet 0) []) =
  [] ++ [Enter; Ask GetNumberOfAnalogChannels; Exit;
         Enter; Cmd (SetupTrigger 0 [] [] []); Exit] /\
  snd (stop_stimulation (quiet 0) [] []) =
  [] ++ [Enter; Ask GetNumberOfAnalogChannels; Exit;
         Enter; Cmd (SendStop 0); Exit].
Proof.
  apply (no_channel_still_calls_the_device (quiet 0) [] 0);
    first [reflexivity | lia].
Defined.

(** ** Reading a property changes nothing *)

Lemma one_query_session self {A} (q : channel_query) (f : Z -> exn + A) h :
  exists new,
    snd ((out <- with_interface self
                   (c <- lift (UInt32 0) ;;
                    v <- ask self (q_at q c) ;; lift (f v)) ;;
          ret out) h) = h ++ new /\
    commands new = [] /\ (List.length new <= 3)%nat.
Proof.
  unfold bind, with_interface, lift, ask, ret.
  change (UInt32 0) with (@inr exn Z 0). cbv iota beta.
  destruct (on_enter self h).
  - exists [Enter]. simpl. repeat split. lia.
  - destruct (on_query self (h ++ [Enter]) (q_at q 0)) as [x|v].
    + exists [Enter; Ask (q_at q 0); Exit]. simpl.
      rewrite <- !app_assoc. repeat split. lia.
    + exists [Enter; Ask (q_at q 0); Exit].
      destruct (f v); simpl; rewrite <- !app_assoc; repeat split; lia.
Qed.

(** X15. Reading a property never changes the device: whatever the device
    answers, the version, channel-count, trigger-count, resolution, range and
    DAC properties ask for no command at all (no mode set, no start or stop,
    no trigger setup, no transfer), and add at most one session with one
    query to the log. *)
Theorem properties_are_read_only :
  forall (self : device) (op : operation) (h : list event),
    is_property op = true ->
    exists new,
      snd (perform self op h) = h ++ new /\
      commands new = [] /\
      (List.length new <= 3)%nat.
Proof.
  intros self op h Hop.
  assert (Hplain : forall (q : query) {A} (g : Z -> A),
             exists new,
               snd ((out <- with_interface self (ask self q) ;; ret (g out)) h)
               = h ++ new /\ commands new = [] /\ (List.length new <= 3)%nat).
  { intros q A g. unfold bind, with_interface, ask, ret.
    destruct (on_enter self h).
    - exists [Enter]. simpl. repeat split. lia.
    - destruct (on_query self (h ++ [Enter]) q);
        exists [Enter; Ask q; Exit]; simpl; rewrite <- !app_assoc;
        repeat split; lia. }
  assert (Hver : forall {A} (g : string * string -> A),
             exists new,
               snd ((v <- with_interface self
                            (ask_version self EmptyString EmptyString) ;;
                     ret (g v)) h)
               = h ++ new /\ commands new = [] /\ (List.length new <= 3)%nat).
  { intros A g. unfold bind, with_interface, ask_version, ret.
    destruct (on_enter self h).
    - exists [Enter]. simpl. repeat split. lia.
    - destruct (on_version self (h ++ [Enter]) EmptyString EmptyString);
        exists [Enter; GetStgVersionInfo EmptyString EmptyString; Exit];
        simpl; rewrite <- !app_assoc; repeat split; lia. }
  destruct op; try discriminate Hop; unfold perform, raised; simpl snd.
  - exact (Hplain GetNumberOfAnalogChannels _ (fun out => out)).
  - exact (Hplain GetNumberOfTriggerInputs _ (fun out => out)).
  - destruct (Hver _ (fun v : string * string => v)) as (new & Hlog & Hrest).
    exists new. split; [|exact Hrest]. rewrite <- Hlog.
    unfold version, _version, bind, ret.
    destruct (with_interface self _ h) as [[x|[soft hard]] h1]; reflexivity.
  - destruct (Hver _ (fun v : string * string => v)) as (new & Hlog & Hrest).
    exists new. split; [|exact Hrest]. rewrite <- Hlog.
    unfold _version, bind, ret.
    destruct (with_interface self _ h) as [[x|v] h1]; reflexivity.
  - exact (one_query_session self QCurrentResolution
             (fun v => Py.truediv v 1000) h).
  - exact (one_query_session self QCurrentResolution
             (fun v => Py.truediv v (1000 * 1000)) h).
  - exact (one_query_session self QCurrentRange
             (fun v => Py.truediv v (1000 * 1000)) h).
  - exact (one_query_session self QCurrentRange
             (fun v => Py.truediv v 1000) h).
  - destruct (one_query_session self QVoltageResolution
                (fun v => @inr exn Z v) h) as (new & Hlog & Hrest).
    exists new. split; [|exact Hrest]. rewrite <- Hlog.
    unfold voltage_resolution_in_uV, bind, with_interface, lift, ask, ret.
    change (UInt32 0) with (@inr exn Z 0). cbv iota beta. simpl q_at.
    destruct (on_enter self h); [reflexivity|].
    destruct (on_query self _ _); reflexivity.
  - exact (one_query_session self QVoltageRange
             (fun v => Py.truediv v 1000) h).
  - exists []. simpl. rewrite app_nil_r. repeat split. lia.
  - exact (Hplain GetDACResolution _ (fun out => out)).
Qed.

Lemma properties_are_read_only_witness :
  exists new,
    snd (perform (quiet 8) CurrentRangeInMA []) = [] ++ new /\
    commands new = [] /\
    (List.length new <= 3)%nat.
Proof.
  apply (properties_are_read_only (quiet 8) CurrentRangeInMA []).
  reflexivity.
Defined.

(** ** The default selection and the explicit one *)

Lemma bind_steps {A B} (m : M A) (k : A -> M B) h :
  (x <- m ;; k x) h =
  match m h with
  | (inl x, h1) => (inl x, h1)
  | (inr a, h1) => k a h1
  end.
Proof. reflexivity. Qed.

Lemma range_pos_not_nil (n : Z) : 1 <= n -> Py.eq_nil (Py.range n) = false.
Proof.
  intros Hn. unfold Py.range.
  destruct (Z.to_nat n) as [|k] eqn:E; [lia | reflexivity].
Qed.

(** X16. Stopping with the default selection is the same as asking the channel
    count and then stopping the explicit selection of all channels
    [0..count-1]: same result, same log, provided the device, if it answers
    the count, reports at least one channel (with no channel the explicit
    selection would be empty and be resolved once more). *)
Theorem default_stop_is_stop_of_all_channels :
  forall (self : device) (h : list event),
    (forall n, on_query self (h ++ [Enter]) GetNumberOfAnalogChannels = inr n ->
               1 <= n) ->
    stop_stimulation self [] h =
    (n <- channel_count self ;; stop_stimulation self (Py.range n)) h.
Proof.
  intros self h Hn.
  rewrite stop_stimulation_steps. cbn [Py.eq_nil].
  rewrite bind_ret_steps.
  rewrite (bind_steps (channel_count self)
                      (fun n => stop_stimulation self (Py.range n))).
  rewrite channel_count_cases.
  destruct (on_enter self h); [reflexivity|].
  destruct (on_query self (h ++ [Enter]) GetNumberOfAnalogChannels)
    as [x|n]; [reflexivity|].
  rewrite stop_stimulation_steps, (range_pos_not_nil n (Hn n eq_refl)).
  unfold ret. now rewrite map_id_range.
Qed.

Lemma default_stop_is_stop_of_all_channels_witness :
  stop_stimulation (quiet 8) [] [] =
  (n <- channel_count (quiet 8) ;; stop_stimulation (quiet 8) (Py.range n)) [].
Proof.
  apply (default_stop_is_stop_of_all_channels (quiet 8) []).
  simpl. intros n Hn. injection Hn as <-. lia.
Defined.

(** ** [download] and the length check *)



